(** * video_analyzer: the retrieval-augmented question answering core

    A shallow embedding of [src/services/rag_system.py] (class [RAGSystem])
    and the properties of its chunk builder, reranker, confidence estimator,
    indexing path and query path.

    Conventions of the embedding.
    - A Python [str] is a list of characters; a character is an 8-bit code
      point (the Latin-1 range of Unicode), classified as Python classifies
      that code point ([str.isspace], the [\w] class of [re], [str.lower]).
    - A Python [float] is an exact rational ([Qc], canonical fractions, so
      that equal numbers are equal terms); rounding of binary64 arithmetic
      is not modelled.
    - A Python [int] is [Z] where it may be negative ([chunk_size],
      [max_results]) and [nat] where it counts.
    - A [dict] with a fixed set of keys is a record; a key that may be
      absent is an [option] field.
    - Exceptions, the attributes of [self] and standard output are threaded
      through a state-and-exception monad [Py].
    - The embedding model, the vector store search, the chat completion
      service and [json.loads] are not code of this repository: they are the
      fields of a record [Ext] every effectful function takes. *)

From Stdlib Require Import QArith Qcanon ZArith Ascii String List Lia Lqa.
From Stdlib Require Import Numbers.DecimalString Sorting.Permutation Sorting.Sorted.
From Stdlib Require Numbers.DecimalNat.
From stdpp Require Import base decidable list strings gmap numbers.
Import ListNotations.

Set Default Proof Using "Type".

(** ** Python strings *)

Abbreviation str := (list ascii).

(** A string literal of the source. *)
Definition lit (x : string) : str := list_ascii_of_string x.

Module PyStr.

(** [str.isspace] on one character: TAB..CR, FS..US, space, NEL, NBSP. *)
Definition isspace (c : ascii) : bool :=
  let n := N_of_ascii c in
  (((9 <=? n) && (n <=? 13)) || ((28 <=? n) && (n <=? 32))
   || (n =? 133) || (n =? 160))%N.

(** The character class [[.!?]] of the sentence splitter. *)
Definition is_delim (c : ascii) : bool :=
  (Ascii.eqb c "." || Ascii.eqb c "!" || Ascii.eqb c "?")%char.

(** The class [\w] of [re] on a [str] pattern: alphanumeric or underscore. *)
Definition is_word (c : ascii) : bool :=
  let n := N_of_ascii c in
  (((48 <=? n) && (n <=? 57)) || ((65 <=? n) && (n <=? 90))
   || (n =? 95) || ((97 <=? n) && (n <=? 122))
   || (n =? 170) || (n =? 178) || (n =? 179) || (n =? 181)
   || (n =? 185) || (n =? 186) || ((188 <=? n) && (n <=? 190))
   || ((192 <=? n) && (n <=? 214)) || ((216 <=? n) && (n <=? 246))
   || (248 <=? n))%N.

(** The class [\d]: decimal digits. *)
Definition is_digit (c : ascii) : bool :=
  let n := N_of_ascii c in ((48 <=? n) && (n <=? 57))%N.

(** [str.lower] on one character. *)
Definition lower_char (c : ascii) : ascii :=
  let n := N_of_ascii c in
  if (((65 <=? n) && (n <=? 90))
      || ((192 <=? n) && (n <=? 222) && negb (n =? 215)))%N
  then ascii_of_N (n + 32) else c.

Definition lower (x : str) : str := map lower_char x.

(** Truth value of a string: non-empty. *)
Definition truthy (x : str) : bool :=
  match x with [] => false | _ :: _ => true end.

Fixpoint lstrip (x : str) : str :=
  match x with
  | [] => []
  | c :: x' => if isspace c then lstrip x' else x
  end.

Definition rstrip (x : str) : str := rev (lstrip (rev x)).

(** [str.strip()] *)
Definition strip (x : str) : str := rstrip (lstrip x).

(** [re.split(r'[.!?]+', x)]: the pieces between the maximal runs of
    delimiters, empty pieces included. [prev] tells that the previous
    character was a delimiter (the run is still open). *)
Fixpoint re_split_from (prev : bool) (x : str) : list str :=
  match x with
  | [] => [[]]
  | c :: x' =>
      if is_delim c then
        if prev then re_split_from true x' else [] :: re_split_from true x'
      else
        match re_split_from false x' with
        | [] => [[c]]
        | p :: ps => (c :: p) :: ps
        end
  end.

Definition re_split_sentences (x : str) : list str := re_split_from false x.

(** [re.findall(r'\b\w+\b', x)]: the maximal runs of word characters.
    [cur] is the run being read, reversed. *)
Fixpoint findall_from (cur : str) (x : str) : list str :=
  match x with
  | [] => match cur with [] => [] | _ => [rev cur] end
  | c :: x' =>
      if is_word c then findall_from (c :: cur) x'
      else match cur with
           | [] => findall_from [] x'
           | _ => rev cur :: findall_from [] x'
           end
  end.

Definition re_findall_words (x : str) : list str := findall_from [] x.

(** [len(x.split())]: the number of maximal runs of non-space characters.
    [inword] tells that the previous character was not a space. *)
Fixpoint count_words_from (inword : bool) (x : str) : nat :=
  match x with
  | [] => 0
  | c :: x' =>
      if isspace c then count_words_from false x'
      else if inword then count_words_from true x'
           else S (count_words_from true x')
  end.

Definition split_len (x : str) : nat := count_words_from false x.

(** [x.split('?')[0]]: the part before the first question mark. *)
Fixpoint before_qmark (x : str) : str :=
  match x with
  | [] => []
  | c :: x' => if Ascii.eqb c "?" then [] else c :: before_qmark x'
  end.

(** ['?' in x] *)
Definition has_qmark (x : str) : bool := existsb (fun c => Ascii.eqb c "?") x.

(** [x.endswith('?')] *)
Definition endswith_qmark (x : str) : bool :=
  match rev x with
  | c :: _ => Ascii.eqb c "?"
  | [] => false
  end.

Fixpoint drop_while (p : ascii -> bool) (x : str) : str :=
  match x with
  | [] => []
  | c :: x' => if p c then drop_while p x' else x
  end.

(** [re.sub(r'^\d+\.\s*', '', x)]: a leading number, a dot and the spaces
    after it are removed; anything else is left alone. *)
Definition sub_numbering (x : str) : str :=
  match x with
  | c :: _ =>
      if is_digit c then
        match drop_while is_digit x with
        | d :: rest => if Ascii.eqb d "." then drop_while isspace rest else x
        | [] => x
        end
      else x
  | [] => x
  end.

(** [re.sub(r'^[\-\*]\s*', '', x)]: a leading bullet and the spaces after
    it are removed. *)
Definition sub_bullet (x : str) : str :=
  match x with
  | c :: rest =>
      if (Ascii.eqb c "-" || Ascii.eqb c "*")%char
      then drop_while isspace rest else x
  | [] => x
  end.

(** [str(n)] for a non-negative integer. *)
Definition of_nat (n : nat) : str :=
  list_ascii_of_string (NilEmpty.string_of_uint (Nat.to_uint n)).

End PyStr.

Import PyStr.

(** [len(x)] as a Python integer. *)
Definition len {A} (l : list A) : Z := Z.of_nat (length l).

(** ** The chunk builder *)

(** The metadata dictionary of a chunk, as stored in the vector store. *)
Record Metadata := {
  m_type : option str;
  m_start_time : option str;
  m_end_time : option str;
  m_section_title : option str;
  m_timestamp : option str
}.

(** A chunk produced by [_create_chunks]. *)
Record Chunk := {
  c_id : str;
  c_content : str;
  c_source : str;
  c_timestamp : str;
  c_speaker : option str;
  c_section_title : option str;
  c_metadata : Metadata
}.

(** One transcript segment; every key may be absent. *)
Record Segment := {
  seg_text : option str;
  seg_start : option str;
  seg_end : option str;
  seg_speaker : option str
}.

Record Transcript := { segments : option (list Segment) }.

(** One section of the notes; every key may be absent. *)
Record NoteSection := {
  sec_title : option str;
  sec_timestamp : option str;
  sec_content : option str;
  sec_key_points : option (list str);
  sec_quotes : option (list str)
}.

Record Notes := { sections : option (list NoteSection) }.

(** [d.get(key, default)] *)
Definition get {A} (o : option A) (default : A) : A :=
  match o with Some v => v | None => default end.

(** Truth value of [d.get(key)] for a string value. *)
Definition get_truthy (o : option str) : bool :=
  match o with Some v => truthy v | None => false end.

(** [chunk.copy()] with ['id'] and ['content'] reassigned. *)
Definition with_id_content (chunk : Chunk) (i c : str) : Chunk :=
  {| c_id := i; c_content := c; c_source := c_source chunk;
     c_timestamp := c_timestamp chunk; c_speaker := c_speaker chunk;
     c_section_title := c_section_title chunk;
     c_metadata := c_metadata chunk |}.

Module ChunkBuilder.

(** The variables of the loop of [_split_large_chunk]. *)
Record SplitState := {
  chunks : list Chunk;
  current_chunk : str;
  chunk_count : nat
}.

(** [f"{chunk['id']}_{chunk_count}"] with the current text, stripped. *)
Definition new_chunk (chunk : Chunk) (st : SplitState) : Chunk :=
  with_id_content chunk
    (c_id chunk ++ lit "_" ++ PyStr.of_nat (chunk_count st))
    (strip (current_chunk st)).

(** The body of [for sentence in sentences]. *)
Definition split_step (chunk : Chunk) (max_size : Z)
    (st : SplitState) (sentence : str) : SplitState :=
  let sentence := strip sentence in
  if negb (truthy sentence) then st
  else if (len (current_chunk st) + len sentence >? max_size)%Z
          && truthy (current_chunk st)
  then {| chunks := chunks st ++ [new_chunk chunk st];
          current_chunk := sentence;
          chunk_count := S (chunk_count st) |}
  else {| chunks := chunks st;
          current_chunk :=
            current_chunk st ++
            (if truthy (current_chunk st) then lit ". " ++ sentence
             else sentence);
          chunk_count := chunk_count st |}.

(** The part after the loop: the final chunk. *)
Definition split_finish (chunk : Chunk) (st : SplitState) : list Chunk :=
  if truthy (current_chunk st) then chunks st ++ [new_chunk chunk st]
  else chunks st.

Definition split_init : SplitState :=
  {| chunks := []; current_chunk := []; chunk_count := 0 |}.

Definition _split_large_chunk (chunk : Chunk) (max_size : Z) : list Chunk :=
  split_finish chunk
    (fold_left (split_step chunk max_size)
       (re_split_sentences (c_content chunk)) split_init).

(** The candidate of one transcript segment. *)
Definition transcript_chunk (chunk_id : nat) (segment : Segment) : Chunk :=
  {| c_id := lit "transcript_" ++ PyStr.of_nat chunk_id;
     c_content := get (seg_text segment) [];
     c_source := lit "transcript";
     c_timestamp := get (seg_start segment) (lit "00:00");
     c_speaker := Some (get (seg_speaker segment) []);
     c_section_title := None;
     c_metadata :=
       {| m_type := Some (lit "transcript_segment");
          m_start_time := Some (get (seg_start segment) (lit "00:00"));
          m_end_time := Some (get (seg_end segment) (lit "00:00"));
          m_section_title := None;
          m_timestamp := None |} |}.

(** The candidate of a notes section, of a key point or of a quote. *)
Definition notes_chunk (prefix source type : string) (chunk_id : nat)
    (section : NoteSection) (text : str) : Chunk :=
  {| c_id := lit prefix ++ PyStr.of_nat chunk_id;
     c_content := text;
     c_source := lit source;
     c_timestamp := get (sec_timestamp section) (lit "00:00");
     c_speaker := None;
     c_section_title := Some (get (sec_title section) []);
     c_metadata :=
       {| m_type := Some (lit type);
          m_start_time := None;
          m_end_time := None;
          m_section_title := Some (get (sec_title section) []);
          m_timestamp := Some (get (sec_timestamp section) (lit "00:00")) |} |}.

(** The list [chunks] and the counter [chunk_id] of [_create_chunks]. *)
Definition Acc : Type := list Chunk * nat.

Definition append (mk : nat -> Chunk) (acc : Acc) : Acc :=
  (fst acc ++ [mk (snd acc)], S (snd acc)).

(** The body of [for section in notes['sections']]. *)
Definition section_step (acc : Acc) (section : NoteSection) : Acc :=
  let acc :=
    if get_truthy (sec_content section)
    then append (fun n => notes_chunk "notes_" "notes" "notes_section" n
                            section (get (sec_content section) [])) acc
    else acc in
  let acc :=
    fold_left
      (fun acc point =>
         append (fun n => notes_chunk "keypoint_" "key_points" "key_point" n
                            section point) acc)
      (get (sec_key_points section) []) acc in
  fold_left
    (fun acc quote =>
       append (fun n => notes_chunk "quote_" "quotes" "quote" n
                          section quote) acc)
    (get (sec_quotes section) []) acc.

(** The candidate chunks: the list [chunks] before large ones are split. *)
Definition candidates (transcript : Transcript) (notes : Notes) : list Chunk :=
  let acc :=
    fold_left (fun acc segment => append (fun n => transcript_chunk n segment) acc)
      (get (segments transcript) []) ([], 0) in
  fst (fold_left section_step (get (sections notes) []) acc).

(** The body of [for chunk in chunks] that fills [final_chunks]. *)
Definition final_step (chunk_size : Z) (final_chunks : list Chunk)
    (chunk : Chunk) : list Chunk :=
  if (len (c_content chunk) >? chunk_size)%Z
  then final_chunks ++ _split_large_chunk chunk chunk_size
  else final_chunks ++ [chunk].

Definition split_all (chunk_size : Z) (cands : list Chunk) : list Chunk :=
  fold_left (final_step chunk_size) cands [].

Definition _create_chunks (transcript : Transcript) (notes : Notes)
    (chunk_size : Z) : list Chunk :=
  split_all chunk_size (candidates transcript notes).

End ChunkBuilder.

Import ChunkBuilder.

(** ** Numbers *)

Open Scope Qc_scope.

(** The decimal literal [n/d] of the source. *)
Definition dec (n : Z) (d : positive) : Qc := Q2Qc (n # d).

(** A Python integer used in float arithmetic. *)
Definition of_int (n : nat) : Qc := Qc_of_Z (Z.of_nat n).

(** [min(a, b)] of Python: the first argument unless the second is
    strictly smaller. *)
Definition py_min (a b : Qc) : Qc := if decide (b < a) then b else a.

(** [sum(xs)] *)
Definition py_sum (xs : list Qc) : Qc := fold_left Qcplus xs 0.

(** [l[:k]] for a Python integer [k]: a negative [k] counts from the end. *)
Definition slice_to {A} (k : Z) (l : list A) : list A :=
  if (k <? 0)%Z then firstn (Z.to_nat (len l + k)) l
  else firstn (Z.to_nat k) l.

(** ** The reranker *)

(** A candidate built by [_retrieve_relevant_chunks] from one search hit. *)
Record Retrieved := {
  r_content : str;
  r_metadata : Metadata;
  r_distance : Qc;
  relevance_score : Qc
}.

Definition set_relevance_score (chunk : Retrieved) (v : Qc) : Retrieved :=
  {| r_content := r_content chunk; r_metadata := r_metadata chunk;
     r_distance := r_distance chunk; relevance_score := v |}.

Module Reranker.

(** [set(re.findall(r'\b\w+\b', text.lower()))] *)
Definition keywords (text : str) : gset str :=
  list_to_set (re_findall_words (lower text)).

(** [len(q & c) / len(q) if q else 0] *)
Definition keyword_overlap (question_keywords content_keywords : gset str) : Qc :=
  if decide (question_keywords = ∅) then 0
  else of_int (size (question_keywords ∩ content_keywords))
       / of_int (size question_keywords).

(** The boost chosen from [chunk['metadata'].get('type')]. *)
Definition source_boost (metadata : Metadata) : Qc :=
  if decide (m_type metadata = Some (lit "key_point")) then dec 12 10
  else if decide (m_type metadata = Some (lit "quote")) then dec 11 10
  else 1.

(** The body of [for chunk in chunks]: the new [relevance_score]. The loop
    updates each dictionary in place; the dictionaries of the list are
    distinct objects, built one per hit by [_retrieve_relevant_chunks], so
    that the loop is a map over the list. *)
Definition rescore (question_keywords : gset str) (chunk : Retrieved) : Retrieved :=
  let content_keywords := keywords (r_content chunk) in
  let overlap := keyword_overlap question_keywords content_keywords in
  let boost := source_boost (r_metadata chunk) in
  set_relevance_score chunk
    ((relevance_score chunk * dec 7 10 + overlap * dec 3 10) * boost).

(** [sorted(xs, key=..., reverse=True)]: Python's sort is stable, and with
    [reverse=True] items of equal key keep their original order. One item
    is put after every item of a strictly greater key. *)
Fixpoint insert_desc {A} (key : A -> Qc) (x : A) (l : list A) : list A :=
  match l with
  | [] => [x]
  | y :: l' =>
      if decide (key x < key y) then y :: insert_desc key x l'
      else x :: y :: l'
  end.

Definition sorted_reverse {A} (key : A -> Qc) (l : list A) : list A :=
  fold_right (insert_desc key) [] l.

Definition _rerank_chunks (question : str) (chunks : list Retrieved) : list Retrieved :=
  let question_keywords := keywords question in
  sorted_reverse relevance_score (map (rescore question_keywords) chunks).

End Reranker.

Import Reranker.

(** ** The confidence estimator *)

Module Confidence.

(** [set(chunk['metadata'].get('type', 'unknown') for chunk in chunks)] *)
Definition source_types (chunks : list Retrieved) : gset str :=
  list_to_set (map (fun chunk => get (m_type (r_metadata chunk)) (lit "unknown")) chunks).

Definition _calculate_confidence (chunks : list Retrieved) (answer : str) : Qc :=
  match chunks with
  | [] => 0
  | _ :: _ =>
      let avg_relevance :=
        py_sum (map relevance_score chunks) / of_int (length chunks) in
      let answer_length_factor :=
        py_min (of_int (split_len answer) / of_int 100) 1 in
      let diversity_factor := of_int (size (source_types chunks)) / of_int 4 in
      let confidence :=
        avg_relevance * dec 6 10 + answer_length_factor * dec 2 10
        + diversity_factor * dec 2 10 in
      py_min confidence 1
  end.

End Confidence.

Import Confidence.

(** ** Exceptions, state and the services outside the repository *)

Inductive ExnKind :=
  | AttributeError | IndexError | ValueError | JSONDecodeError
  | NotFoundError | AlreadyExists | ProviderError.

(** A raised exception: its class and [str(e)]. *)
Record Exn := { exn_kind : ExnKind; exn_str : str }.

(** One record of a collection of the vector store. *)
Record Entry := {
  e_id : str;
  e_document : str;
  e_metadata : Metadata;
  e_embedding : list Qc
}.

(** One hit of a nearest-neighbour search. *)
Record Hit := { h_document : str; h_metadata : Metadata; h_distance : Qc }.

(** What [json.loads] makes of a text. *)
Inductive Json :=
  | JsonList (items : list str)
  | JsonOther
  | JsonInvalid (e : Exn).

(** One call of [client.chat.completions.create]. *)
Record ChatRequest := {
  model : str;
  messages : list (str * str);
  temperature : Qc;
  max_tokens : Z
}.

(** The services the class calls and does not define. [inl e]: the call
    raises [e]. *)
Record Ext := {
  (** [SentenceTransformer.encode(texts)], vectors already as lists *)
  encode : list str -> Exn + list (list Qc);
  (** the search of the vector store over the records of one collection *)
  nearest : list Entry -> list Qc -> Z -> Exn + list Hit;
  (** the chat completion service: the content of the first choice *)
  chat : ChatRequest -> Exn + str;
  json_loads : str -> Json;
  (** [datetime.now().strftime('%Y%m%d_%H%M%S')] *)
  now : str
}.

(** The persistent vector store (its collections by name), the attributes
    [chroma_client] and [collection] of the object (the collection handle is
    the name it was created with) and the lines printed so far. *)
Record State := {
  db : gmap str (list Entry);
  chroma_client : bool;
  collection : option str;
  stdout : list str
}.

Inductive Outcome (A : Type) :=
  | Return (a : A)
  | Raise (e : Exn).
Arguments Return {A} a.
Arguments Raise {A} e.

Definition Py (A : Type) : Type := State -> Outcome A * State.

Module PyMonad.

Definition ret {A} (a : A) : Py A := fun st => (Return a, st).

Definition bind {A B} (m : Py A) (k : A -> Py B) : Py B :=
  fun st =>
    match m st with
    | (Return a, st') => k a st'
    | (Raise e, st') => (Raise e, st')
    end.

Definition raise {A} (e : Exn) : Py A := fun st => (Raise e, st).

(** [try: m  except Exception as e: handler e] *)
Definition try_except {A} (m : Py A) (handler : Exn -> Py A) : Py A :=
  fun st =>
    match m st with
    | (Return a, st') => (Return a, st')
    | (Raise e, st') => handler e st'
    end.

Definition read : Py State := fun st => (Return st, st).

Definition write (st : State) : Py unit := fun _ => (Return tt, st).

(** The result of a call outside the repository. *)
Definition call {A} (r : Exn + A) : Py A :=
  match r with inl e => raise e | inr a => ret a end.

(** [print(line)] *)
Definition print (line : str) : Py unit :=
  fun st => (Return tt,
             {| db := db st; chroma_client := chroma_client st;
                collection := collection st;
                stdout := stdout st ++ [line] |}).

(** [for x in xs: body x] *)
Fixpoint for_each {A} (xs : list A) (body : A -> Py unit) : Py unit :=
  match xs with
  | [] => ret tt
  | x :: xs' => bind (body x) (fun _ => for_each xs' body)
  end.

End PyMonad.

Import PyMonad.

Notation "x <- m ;; k" := (bind m (fun x => k))
  (at level 100, m at next level, right associativity).
Notation "m ;;; k" := (bind m (fun _ => k))
  (at level 100, right associativity).

Definition set_db (d : gmap str (list Entry)) (st : State) : State :=
  {| db := d; chroma_client := chroma_client st;
     collection := collection st; stdout := stdout st |}.

Definition set_collection (c : option str) (st : State) : State :=
  {| db := db st; chroma_client := chroma_client st;
     collection := c; stdout := stdout st |}.

Definition set_chroma_client (b : bool) (st : State) : State :=
  {| db := db st; chroma_client := b;
     collection := collection st; stdout := stdout st |}.

Definition exn (k : ExnKind) (msg : string) : Exn :=
  {| exn_kind := k; exn_str := lit msg |}.

(** ** The vector store *)

Module VectorStore.

(** The vector store is a library outside the repository (chromadb). The
    operations the class calls are embedded by their contract: a collection
    is a named list of records, created under a free name, extended by
    [add], searched by [query], counted by [count] and removed by
    [delete_collection]; an operation on a name that does not exist
    raises. *)

(** [chroma_client.create_collection(name)]: the name must be free. *)
Definition create_collection (name : str) : Py unit :=
  st <- read ;;
  match db st !! name with
  | Some _ => raise (exn AlreadyExists "collection already exists")
  | None => write (set_db (<[name := []]> (db st)) st)
  end.

(** [chroma_client.delete_collection(name)] *)
Definition delete_collection (name : str) : Py unit :=
  st <- read ;;
  match db st !! name with
  | Some _ => write (set_db (delete name (db st)) st)
  | None => raise (exn NotFoundError "collection does not exist")
  end.

(** The records behind the attribute [self.collection]: an attribute of
    [None] cannot be used, and the collection must still exist. *)
Definition records (method : string) : Py (str * list Entry) :=
  st <- read ;;
  match collection st with
  | None =>
      raise {| exn_kind := AttributeError;
               exn_str := lit "'NoneType' object has no attribute '"
                          ++ lit method ++ lit "'" |}
  | Some name =>
      match db st !! name with
      | Some es => ret (name, es)
      | None => raise (exn NotFoundError "collection does not exist")
      end
  end.

Fixpoint zip_entries (ids documents : list str) (metadatas : list Metadata)
    (embeddings : list (list Qc)) : list Entry :=
  match ids, documents, metadatas, embeddings with
  | i :: ids', d :: documents', m :: metadatas', v :: embeddings' =>
      {| e_id := i; e_document := d; e_metadata := m; e_embedding := v |}
      :: zip_entries ids' documents' metadatas' embeddings'
  | _, _, _, _ => []
  end.

(** [collection.add(ids, documents, metadatas, embeddings)]: the four
    lists must have one length; the records are appended. *)
Definition add (ids documents : list str) (metadatas : list Metadata)
    (embeddings : list (list Qc)) : Py unit :=
  r <- records "add" ;;
  if decide (length documents = length ids
             /\ length metadatas = length ids
             /\ length embeddings = length ids)
  then st <- read ;;
       write (set_db (<[fst r := snd r
                         ++ zip_entries ids documents metadatas embeddings]>
                        (db st)) st)
  else raise (exn ValueError "unequal lengths").

(** [collection.query(query_embeddings=[v], n_results=n, ...)] *)
Definition query (ext : Ext) (v : list Qc) (n_results : Z) : Py (list Hit) :=
  r <- records "query" ;;
  call (nearest ext (snd r) v n_results).

(** [collection.count()] *)
Definition count : Py nat :=
  r <- records "count" ;;
  ret (length (snd r)).

End VectorStore.

(** ** The class [RAGSystem] *)

Definition nl : str := ["010"%char].

(** ["\n".join(parts)] *)
Fixpoint join_lines (parts : list str) : str :=
  match parts with
  | [] => []
  | [p] => p
  | p :: ps => p ++ nl ++ join_lines ps
  end.

(** One entry of ['sources'] in the result of [answer_question]. *)
Record Source := {
  src_content : str;
  src_relevance_score : Qc;
  src_section_title : str;
  src_timestamp : str;
  src_source_type : str
}.

(** The dictionary [answer_question] returns. *)
Record Answer := {
  answer : str;
  sources : list Source;
  follow_up_questions : list str;
  confidence : Qc
}.

(** The dictionary [setup_vector_store] returns. *)
Record StoreInfo := {
  collection_name : str;
  total_chunks : nat;
  chunk_size : Z
}.

(** The options of a question; the key may be absent. *)
Record Options := { max_sources : option Z }.

Module RAGSystem.

Definition chat_model : str := lit "llama-3.3-70b-versatile".

(** [_generate_embeddings]: the vectors of the model, or on any failure of
    the model one vector of 384 zeros per text, after a printed line. *)
Definition _generate_embeddings (ext : Ext) (texts : list str) : Py (list (list Qc)) :=
  try_except
    (call (encode ext texts))
    (fun e =>
       print (lit "Error generating embeddings: " ++ exn_str e) ;;;
       ret (map (fun _ => repeat 0 384) texts)).

(** [range(0, stop, step)] *)
Definition range_step (stop step : nat) : list nat :=
  map (fun j => j * step)%nat (seq 0 ((stop + step - 1) / step)).

(** [xs[i:i+n]] *)
Definition slice {A} (i n : nat) (xs : list A) : list A := firstn n (skipn i xs).

Definition batch_size : nat := 100.

(** The body of [for i in range(0, len(chunks), batch_size)]. *)
Definition store_batch (ext : Ext) (batch : list Chunk) : Py unit :=
  let ids := map c_id batch in
  let documents := map c_content batch in
  let metadatas := map c_metadata batch in
  embeddings <- _generate_embeddings ext (map c_content batch) ;;
  VectorStore.add ids documents metadatas embeddings.

Definition _store_chunks (ext : Ext) (chunks : list Chunk) : Py unit :=
  for_each (range_step (length chunks) batch_size)
    (fun i => store_batch ext (slice i batch_size chunks)).

Definition setup_vector_store (ext : Ext) (transcript : Transcript)
    (notes : Notes) (chunk_size : Z) : Py StoreInfo :=
  st <- read ;;
  write (set_chroma_client true st) ;;;
  let collection_name := lit "video_content_" ++ now ext in
  VectorStore.create_collection collection_name ;;;
  st <- read ;;
  write (set_collection (Some collection_name) st) ;;;
  let chunks := _create_chunks transcript notes chunk_size in
  _store_chunks ext chunks ;;;
  ret {| collection_name := collection_name;
         total_chunks := length chunks;
         chunk_size := chunk_size |}.

(** The candidate of one search hit. *)
Definition hit_chunk (h : Hit) : Retrieved :=
  {| r_content := h_document h;
     r_metadata := h_metadata h;
     r_distance := h_distance h;
     relevance_score := 1 - h_distance h |}.

(** [xs[0]] *)
Definition first {A} (xs : list A) : Py A :=
  match xs with
  | x :: _ => ret x
  | [] => raise (exn IndexError "list index out of range")
  end.

Definition _retrieve_relevant_chunks (ext : Ext) (question : str)
    (max_results : Z) : Py (list Retrieved) :=
  try_except
    (embeddings <- _generate_embeddings ext [question] ;;
     query_embedding <- first embeddings ;;
     results <- VectorStore.query ext query_embedding (max_results * 2) ;;
     let chunks := map hit_chunk results in
     let reranked_chunks := _rerank_chunks question chunks in
     ret (slice_to max_results reranked_chunks))
    (fun e =>
       print (lit "Error retrieving chunks: " ++ exn_str e) ;;;
       ret []).

(** The header and text of the chunk of index [i]. *)
Definition context_part (i : nat) (chunk : Retrieved) : str :=
  let metadata := r_metadata chunk in
  let source_info := lit "Source " ++ PyStr.of_nat (i + 1) in
  let source_info :=
    if get_truthy (m_section_title metadata)
    then source_info ++ lit " - " ++ get (m_section_title metadata) []
    else source_info in
  let source_info :=
    if get_truthy (m_timestamp metadata)
    then source_info ++ lit " [" ++ get (m_timestamp metadata) [] ++ lit "]"
    else source_info in
  source_info ++ lit ":" ++ nl ++ r_content chunk ++ nl.

Fixpoint context_parts (i : nat) (chunks : list Retrieved) : list str :=
  match chunks with
  | [] => []
  | chunk :: rest => context_part i chunk :: context_parts (S i) rest
  end.

Definition _prepare_context (chunks : list Retrieved) : str :=
  join_lines (context_parts 0 chunks).

Definition system_prompt : str :=
  join_lines
    [ [];
      lit "        You are an expert video content analyst. Your task is to answer questions based on the provided video content context.";
      lit "        ";
      lit "        Guidelines:";
      lit "        1. Use only the information provided in the context";
      lit "        2. Be accurate and factual";
      lit "        3. Include specific details and examples when available";
      lit "        4. If the context doesn't contain enough information, say so";
      lit "        5. Maintain a helpful and informative tone";
      lit "        6. Reference timestamps when relevant";
      lit "        7. Prioritize key points and direct quotes";
      lit "        " ].

Definition user_prompt (question context : str) : str :=
  join_lines
    [ [];
      lit "        Based on the following video content, please answer this question: " ++ question;
      lit "        ";
      lit "        Context from video:";
      lit "        " ++ context;
      lit "        ";
      lit "        Please provide a comprehensive answer based on the available information.";
      lit "        " ].

Definition apology : str :=
  lit "I apologize, but I encountered an error while generating the answer. Please try again.".

(** The arguments of the chat completion call of [_generate_answer]. *)
Definition answer_request (question context : str) : ChatRequest :=
  {| model := chat_model;
     messages := [(lit "system", system_prompt);
                  (lit "user", user_prompt question context)];
     temperature := dec 3 10;
     max_tokens := 1000 |}.

Definition _generate_answer (ext : Ext) (question : str)
    (chunks : list Retrieved) : Py str :=
  let context := _prepare_context chunks in
  try_except
    (content <- call (chat ext (answer_request question context)) ;;
     ret (strip content))
    (fun e =>
       print (lit "Error generating answer: " ++ exn_str e) ;;;
       ret apology).

Definition _process_sources (chunks : list Retrieved) : list Source :=
  map (fun chunk =>
         {| src_content := r_content chunk;
            src_relevance_score := relevance_score chunk;
            src_section_title :=
              get (m_section_title (r_metadata chunk)) (lit "Unknown Section");
            src_timestamp := get (m_timestamp (r_metadata chunk)) (lit "00:00");
            src_source_type := get (m_type (r_metadata chunk)) (lit "unknown") |})
      chunks.

(** The body of [for sentence in sentences] of
    [_extract_questions_from_text]. *)
Definition extract_step (questions : list str) (sentence : str) : list str :=
  let sentence := strip sentence in
  if endswith_qmark sentence || has_qmark sentence then
    let question := before_qmark sentence ++ lit "?" in
    let question := sub_numbering question in
    let question := sub_bullet question in
    if (len question >? 10)%Z then questions ++ [question] else questions
  else questions.

Definition _extract_questions_from_text (text : str) : list str :=
  let sentences := re_split_sentences text in
  let questions := fold_left extract_step sentences [] in
  slice_to 3 questions.

Definition follow_up_prompt (question answer context : str) : str :=
  join_lines
    [ [];
      lit "        Based on the following question, answer, and context, suggest 3 relevant follow-up questions:";
      lit "        ";
      lit "        Original Question: " ++ question;
      lit "        Answer: " ++ answer;
      lit "        Context: " ++ context;
      lit "        ";
      lit "        Please provide 3 follow-up questions that would help the user explore the topic further.";
      lit "        Format as a JSON array of strings.";
      lit "        " ].

Definition _generate_follow_up_questions (ext : Ext) (question answer : str)
    (chunks : list Retrieved) : Py (list str) :=
  let context := _prepare_context (slice_to 3 chunks) in
  try_except
    (content <-
       call (chat ext
               {| model := chat_model;
                  messages := [(lit "user", follow_up_prompt question answer context)];
                  temperature := dec 4 10;
                  max_tokens := 300 |}) ;;
     let content := strip content in
     match json_loads ext content with
     | JsonList follow_ups => ret follow_ups
     | JsonOther => ret []
     | JsonInvalid _ => ret (_extract_questions_from_text content)
     end)
    (fun e =>
       print (lit "Error generating follow-up questions: " ++ exn_str e) ;;;
       ret []).

(** [answer_question]; its argument [vector_store] is never read and is
    left out. *)
Definition answer_question (ext : Ext) (question : str) (options : Options)
    : Py Answer :=
  relevant_chunks <-
    _retrieve_relevant_chunks ext question (get (max_sources options) 3%Z) ;;
  answer <- _generate_answer ext question relevant_chunks ;;
  let sources := _process_sources relevant_chunks in
  follow_ups <- _generate_follow_up_questions ext question answer relevant_chunks ;;
  ret {| answer := answer;
         sources := sources;
         follow_up_questions := follow_ups;
         confidence := _calculate_confidence relevant_chunks answer |}.

(** [clear_collection]: any failure of the deletion is swallowed and the
    handle is then kept. *)
Definition clear_collection : Py unit :=
  st <- read ;;
  match collection st with
  | Some name =>
      try_except
        ((if chroma_client st then VectorStore.delete_collection name
          else raise {| exn_kind := AttributeError;
                        exn_str := lit "'NoneType' object has no attribute 'delete_collection'" |}) ;;;
         st <- read ;;
         write (set_collection None st))
        (fun _ => ret tt)
  | None => ret tt
  end.

(** [__init__]: the object starts without a store client and without a
    collection. What is on disk and what was printed stay; the
    construction of the chat client and of the embedding model is outside
    the repository. *)
Definition __init__ : Py unit :=
  st <- read ;;
  write (set_collection None (set_chroma_client false st)).

(** The dictionary [get_collection_stats] returns when it is not empty. *)
Record CollectionStats := {
  stats_total_chunks : nat;
  stats_collection_name : str;
  stats_embedding_model : str
}.

(** [get_collection_stats]; [None] is the empty dictionary. *)
Definition get_collection_stats : Py (option CollectionStats) :=
  st <- read ;;
  match collection st with
  | None => ret None
  | Some name =>
      try_except
        (count <- VectorStore.count ;;
         ret (Some {| stats_total_chunks := count;
                      stats_collection_name := name;
                      stats_embedding_model :=
                        lit "sentence-transformers/all-MiniLM-L6-v2" |}))
        (fun _ => ret None)
  end.

End RAGSystem.

Import RAGSystem.

(** ** The question page [components/qa_page.py] *)

(** One entry of [st.session_state.qa_history]. *)
Record HistoryItem := {
  qa_question : str;
  qa_answer : str;
  qa_timestamp : str;
  qa_sources_count : nat
}.

Module QAPage.

(** The path of [qa_page] to an answer: every run of the page constructs a
    [RAGSystem] object and, when the button is pressed, asks it the
    question. *)
Definition ask (ext : Ext) (question : str) (options : Options) : Py Answer :=
  __init__ ;;;
  answer_question ext question options.

(** [xs[-n:]] for a positive [n]: the last [n] items. *)
Definition last_n {A} (n : nat) (xs : list A) : list A :=
  skipn (length xs - n) xs.

(** [save_question_to_history]; [qa_history] is the entry of the session
    state, absent at first, and [timestamp] the formatted time of the
    call. The new value of the entry is returned. *)
Definition save_question_to_history (timestamp : str) (question : str)
    (result : Answer) (qa_history : option (list HistoryItem))
    : list HistoryItem :=
  let qa_history := get qa_history [] in
  let qa_history :=
    qa_history ++
    [{| qa_question := question;
        qa_answer := answer result;
        qa_timestamp := timestamp;
        qa_sources_count := length (sources result) |}] in
  if (len qa_history >? 20)%Z then last_n 20 qa_history else qa_history.

Definition default_suggestions : list str :=
  [lit "What are the main topics discussed?";
   lit "Can you summarize the key points?";
   lit "What are the most important takeaways?";
   lit "Are there any specific examples mentioned?";
   lit "What conclusions were drawn?";
   lit "What questions are answered in this video?"].

(** [generate_suggested_questions]; [notes] and [topics] are the notes of
    the session state and their key ['topics'], which may be absent. *)
Definition generate_suggested_questions (notes : Notes)
    (topics : option (list str)) : list str :=
  let content_suggestions :=
    fold_left
      (fun acc section =>
         let title := get (sec_title section) [] in
         if truthy title then acc ++ [lit "Tell me more about " ++ title]
         else acc)
      (firstn 3 (get (sections notes) [])) [] in
  let content_suggestions :=
    fold_left
      (fun acc topic => acc ++ [lit "Explain " ++ topic ++ lit " in detail"])
      (firstn 2 (get topics [])) content_suggestions in
  let all_suggestions := content_suggestions ++ default_suggestions in
  firstn 8 all_suggestions.

End QAPage.

(** * The vocabulary of the specification *)

(** ** Chunks *)

(** The text of a string without spaces. *)
Definition modulo_whitespace (x : str) : str :=
  List.filter (fun c => negb (isspace c)) x.

(** The text of a string without spaces and sentence delimiters. *)
Definition essence (x : str) : str :=
  List.filter (fun c => negb (isspace c || is_delim c)) x.

(** The texts of a list of chunks, one after the other. *)
Definition contents (l : list Chunk) : str := concat (map c_content l).

(** The sentences the splitter finds in a text. *)
Definition sentences_of (x : str) : list str :=
  List.filter truthy (map strip (re_split_sentences x)).

(** The size invariant of the data model: a chunk fits the bound or is one
    sentence. *)
Definition fits (max_size : Z) (c : Chunk) : Prop :=
  (len (c_content c) <= max_size)%Z
  \/ (length (sentences_of (c_content c)) <= 1)%nat.

(** What the state of the splitter loop holds so far. *)
Definition held (st : SplitState) : str :=
  essence (contents (chunks st) ++ current_chunk st).

(** A text without sentence delimiter. *)
Definition no_delim (x : str) : Prop :=
  forallb (fun c => negb (is_delim c)) x = true.

(** A text is within the bound widened by the separator, or holds no
    delimiter. *)
Definition loose (max_size : Z) (x : str) : Prop :=
  (len x <= max_size + 2)%Z \/ no_delim x.

(** The invariant of the splitter loop. *)
Definition split_inv (max_size : Z) (st : SplitState) : Prop :=
  Forall (fun c => loose max_size (c_content c)) (chunks st)
  /\ loose max_size (current_chunk st).

(** ** Reranking, in the words of the specification *)

Module Spec.

(** A character whose code lies in one of the ranges. *)
Definition inRanges (ranges : list (N * N)) (c : ascii) : bool :=
  existsb (fun r => (fst r <=? N_of_ascii c) && (N_of_ascii c <=? snd r))%N
    ranges.

(** A word character: a digit, a letter or the underscore. *)
Definition wordChar (c : ascii) : bool :=
  inRanges [(48, 57); (65, 90); (95, 95); (97, 122); (170, 170); (178, 179);
            (181, 181); (185, 186); (188, 190); (192, 214); (216, 246);
            (248, 255)]%N c.

(** An upper-case letter. *)
Definition upperCase (c : ascii) : bool :=
  inRanges [(65, 90); (192, 214); (216, 222)]%N c.

(** Case is ignored by reading every upper-case letter as its lower-case
    letter, 32 code points later. *)
Definition foldChar (c : ascii) : ascii :=
  if upperCase c then ascii_of_N (N_of_ascii c + 32) else c.

Definition foldCase (text : str) : str := map foldChar text.

(** The word tokens of a text: its maximal runs of word characters. A
    word character starts a token when the text ends after it or goes on
    with another kind of character, and else joins the token that comes
    next. *)
Fixpoint wordTokens (text : str) : list str :=
  match text with
  | [] => []
  | c :: rest =>
      if wordChar c then
        match rest with
        | d :: _ =>
            if wordChar d then
              match wordTokens rest with
              | t :: ts => (c :: t) :: ts
              | [] => [[c]]
              end
            else [c] :: wordTokens rest
        | [] => [[c]]
        end
      else wordTokens rest
  end.

(** The distinct terms of a text: its case-insensitive word tokens, each
    once. *)
Definition distinctTerms (text : str) : list str :=
  remove_dups (wordTokens (foldCase text)).

(** The share of the distinct query terms that are terms of the chunk;
    zero for a query without terms. *)
Definition keywordOverlap (question content : str) : Qc :=
  let queryTerms := distinctTerms question in
  let chunkTerms := distinctTerms content in
  match queryTerms with
  | [] => Q2Qc 0
  | _ :: _ =>
      Qc_of_Z (Z.of_nat (length (filter (fun t => t ∈ chunkTerms) queryTerms)))
      / Qc_of_Z (Z.of_nat (length queryTerms))
  end.

(** 1.2 for a key point, 1.1 for a quote, 1.0 otherwise. *)
Definition sourceTypeBoost (sourceType : option str) : Qc :=
  if decide (sourceType = Some (list_ascii_of_string "key_point"))
  then Q2Qc (12 # 10)
  else if decide (sourceType = Some (list_ascii_of_string "quote"))
  then Q2Qc (11 # 10)
  else Q2Qc 1.

Definition finalScore (question : str) (candidate : Retrieved) : Qc :=
  let similarity := relevance_score candidate in
  (similarity * Q2Qc (7 # 10)
   + keywordOverlap question (r_content candidate) * Q2Qc (3 # 10))
  * sourceTypeBoost (m_type (r_metadata candidate)).

(** What is seen of a candidate: its text, its metadata, its distance and
    a score. *)
Definition scored (candidate : Retrieved) (score : Qc)
    : str * Metadata * Qc * Qc :=
  (r_content candidate, r_metadata candidate, r_distance candidate, score).

(** A candidate as it stands, with the score it carries. *)
Definition observed (candidate : Retrieved) : str * Metadata * Qc * Qc :=
  scored candidate (relevance_score candidate).

(** A list in descending order of a key. *)
Definition descending {A} (key : A -> Qc) (l : list A) : Prop :=
  StronglySorted (fun a b => key b <= key a) l.

(** Two lists hold the items of every single key in the same order. *)
Definition same_order_of_ties {A} (key : A -> Qc) (l1 l2 : list A) : Prop :=
  forall v, filter (fun a => key a = v) l1 = filter (fun a => key a = v) l2.

End Spec.

(** ** The indexing and query paths *)

(** [v] is the vector [_generate_embeddings] yields for one text: the
    first vector of the model, or 384 zeros when the model fails. *)
Definition embeds (ext : Ext) (text : str) (v : list Qc) : Prop :=
  (exists vs, encode ext [text] = inr (v :: vs))
  \/ (exists e, encode ext [text] = inl e /\ v = repeat 0 384).

(** The record stored for a chunk whose batch could not be embedded. *)
Definition zero_entry (c : Chunk) : Entry :=
  {| e_id := c_id c; e_document := c_content c;
     e_metadata := c_metadata c; e_embedding := repeat 0 384 |}.

(** The handle of the object names no collection of the store: it was
    never set or was cleared, or the collection was deleted. *)
Definition collection_missing (st : State) : Prop :=
  match collection st with
  | None => True
  | Some name => db st !! name = None
  end.

(** Two states differ at most in what was printed. *)
Definition same_store (st st' : State) : Prop :=
  db st' = db st /\ collection st' = collection st
  /\ chroma_client st' = chroma_client st.

(** The text [_generate_answer] returns for a question and its chunks: the
    stripped reply of the chat service, or the apology when it fails. *)
Definition answer_text (ext : Ext) (question : str) (chunks : list Retrieved) : str :=
  match chat ext (answer_request question (_prepare_context chunks)) with
  | inr content => strip content
  | inl _ => apology
  end.

(** The state after one more printed line. *)
Definition printed (line : str) (st : State) : State :=
  {| db := db st; chroma_client := chroma_client st;
     collection := collection st; stdout := stdout st ++ [line] |}.

(** ** Candidates and identifiers *)

(** The texts a notes section contributes, in order: its own text when
    it has one, its key points, its quotes. *)
Definition section_texts (section : NoteSection) : list str :=
  (if get_truthy (sec_content section)
   then [get (sec_content section) []] else [])
  ++ get (sec_key_points section) []
  ++ get (sec_quotes section) [].

(** The texts of all candidates: the segments, then the sections. *)
Definition candidate_texts (transcript : Transcript) (notes : Notes) : list str :=
  map (fun segment => get (seg_text segment) []) (get (segments transcript) [])
  ++ flat_map section_texts (get (sections notes) []).

Definition id_prefixes : list str :=
  [lit "transcript_"; lit "notes_"; lit "keypoint_"; lit "quote_"].

(** An identifier of the candidate of number [n]. *)
Definition candidate_id (n : nat) (id : str) : Prop :=
  exists p, In p id_prefixes /\ id = p ++ PyStr.of_nat n.

(** An identifier of the candidate of number [n] or of one of its
    sub-chunks. *)
Definition descends_from (n : nat) (id : str) : Prop :=
  exists p rest,
    candidate_id n p /\ id = p ++ rest
    /\ (rest = [] \/ exists k, rest = lit "_" ++ PyStr.of_nat k).

(** The candidates of a list are numbered from [off] on. *)
Definition numbered (off : nat) (l : list Chunk) : Prop :=
  forall i c, nth_error l i = Some c -> candidate_id (off + i) (c_id c).

(** The counter is the number of candidates so far, and the candidate of
    number [n] carries [n] in its identifier. *)
Definition counted (acc : Acc) : Prop :=
  snd acc = length (fst acc) /\ numbered 0 (fst acc).

(** The identifier of the sub-chunk of number [k]. *)
Definition sub_id (chunk : Chunk) (k : nat) : str :=
  c_id chunk ++ lit "_" ++ PyStr.of_nat k.

(** A text that neither starts nor ends with a space. *)
Definition no_lead (x : str) : Prop :=
  match x with [] => True | c :: _ => isspace c = false end.

Definition trimmed (x : str) : Prop := no_lead x /\ no_lead (rev x).

(** The invariant of the splitter loop on identifiers and texts. *)
Definition split_numbered (chunk : Chunk) (st : SplitState) : Prop :=
  map c_id (chunks st) = map (sub_id chunk) (seq 0 (chunk_count st))
  /\ Forall (fun c => c = with_id_content chunk (c_id c) (c_content c)
                      /\ c_content c <> [] /\ trimmed (c_content c))
       (chunks st)
  /\ trimmed (current_chunk st).

(** ** Follow-up questions *)

(** The arguments of the chat completion call of
    [_generate_follow_up_questions]. *)
Definition follow_up_request (question answer context : str) : ChatRequest :=
  {| model := chat_model;
     messages := [(lit "user", follow_up_prompt question answer context)];
     temperature := dec 4 10;
     max_tokens := 300 |}.

(** The follow-up questions taken from the reply of the chat service: the
    items of the reply when it is a JSON list, none otherwise. *)
Definition follow_up_list (ext : Ext) (question answer : str)
    (chunks : list Retrieved) : list str :=
  match chat ext (follow_up_request question answer
                    (_prepare_context (slice_to 3 chunks))) with
  | inl _ => []
  | inr content =>
      match json_loads ext (strip content) with
      | JsonList follow_ups => follow_ups
      | _ => []
      end
  end.

(** ** Printed lines *)





(** What [answer_question] returns when retrieval yields [chunks]. *)
Definition answer_of (ext : Ext) (question : str) (chunks : list Retrieved) : Answer :=
  let text := answer_text ext question chunks in
  {| answer := text;
     sources := _process_sources chunks;
     follow_up_questions := follow_up_list ext question text chunks;
     confidence := _calculate_confidence chunks text |}.

(** ** Indexing in batches *)

(** The vectors [_generate_embeddings] yields for the texts. *)
Definition vectors (ext : Ext) (texts : list str) : list (list Qc) :=
  match encode ext texts with
  | inr vs => vs
  | inl _ => map (fun _ => repeat 0 384) texts
  end.

(** The batches [_store_chunks] cuts the chunks into. *)
Definition batches (chunks : list Chunk) : list (list Chunk) :=
  map (fun i => slice i batch_size chunks)
      (range_step (length chunks) batch_size).

(** The records stored for one batch. *)
Definition batch_entries (ext : Ext) (batch : list Chunk) : list Entry :=
  VectorStore.zip_entries (map c_id batch) (map c_content batch)
    (map c_metadata batch) (vectors ext (map c_content batch)).

(** The embedding model, where it answers for a batch, gives one vector
    per text. *)
Definition answers_in_full (ext : Ext) (batch : list Chunk) : Prop :=
  match encode ext (map c_content batch) with
  | inr vs => length vs = length batch
  | inl _ => True
  end.

(** The record of a chunk, whatever its vector. *)
Definition entry_of (c : Chunk) (e : Entry) : Prop :=
  e_id e = c_id c /\ e_document e = c_content c
  /\ e_metadata e = c_metadata c.

(** The search of the store reports no distance above 1. *)
Definition distances_at_most_one (ext : Ext) : Prop :=
  forall es v n hits,
    nearest ext es v n = inr hits ->
    Forall (fun h => h_distance h <= 1) hits.

(** ** Inputs of the worked examples *)

Module Examples.

Definition segment (text : string) : Segment :=
  {| seg_text := Some (lit text); seg_start := Some (lit "00:00");
     seg_end := Some (lit "00:05"); seg_speaker := None |}.

Definition section (content : option str) (key_points quotes : option (list str))
    : NoteSection :=
  {| sec_title := Some (lit "Intro"); sec_timestamp := Some (lit "00:00");
     sec_content := content; sec_key_points := key_points;
     sec_quotes := quotes |}.

Definition no_transcript : Transcript := {| segments := None |}.

Definition no_notes : Notes := {| sections := None |}.

(** Three sentences of 11, 11 and 7 characters. *)
Definition greeting : Transcript :=
  {| segments := Some [segment "Hello world. Hello again. Bye now"] |}.

(** A section whose sentences end in three different delimiters. *)
Definition punctuated : Notes :=
  {| sections := Some [section (Some (lit "Is it new? Yes! It is.")) None None] |}.

(** A segment of eleven dots. *)
Definition dots : Chunk := transcript_chunk 0 (segment "...........").

(** A segment, a key point and a quote of empty text; the section has no
    text of its own. *)
Definition silent_transcript : Transcript :=
  {| segments := Some [{| seg_text := Some []; seg_start := Some (lit "00:00");
                         seg_end := Some (lit "00:05"); seg_speaker := None |}] |}.

Definition silent_notes : Notes :=
  {| sections := Some [section (Some []) (Some [[]]) (Some [[]])] |}.

Definition meta (type : string) : Metadata :=
  {| m_type := Some (lit type); m_start_time := None; m_end_time := None;
     m_section_title := None; m_timestamp := None |}.

Definition entry (id type text : string) : Entry :=
  {| e_id := lit id; e_document := lit text; e_metadata := meta type;
     e_embedding := repeat 0 384 |}.

(** Services: the embedding model works or not, every record is at the
    given distance of every query, the chat service gives one fixed reply
    that is not JSON. *)
Definition services (model_up : bool) (distance : Qc) : Ext :=
  {| encode := fun texts =>
       if model_up then inr (map (fun _ => repeat (dec 1 10) 384) texts)
       else inl (exn ProviderError "model unavailable");
     nearest := fun es _ n =>
       inr (firstn (Z.to_nat n)
              (map (fun e => {| h_document := e_document e;
                                h_metadata := e_metadata e;
                                h_distance := distance |}) es));
     chat := fun _ => inr (lit " No. ");
     json_loads := fun _ => JsonInvalid (exn JSONDecodeError "Expecting value");
     now := lit "20240101_120000" |}.

Definition name : str := lit "video_content_20240101_120000".

(** The two chunks of scenario C and a third transcript segment. *)
Definition X : Entry :=
  entry "transcript_0" "transcript_segment" "We discuss AI and machine learning today".

Definition Y : Entry := entry "keypoint_1" "key_point" "AI is the key point".

Definition W : Entry :=
  entry "transcript_2" "transcript_segment" "Today we discuss machine learning and AI".

(** A built collection. *)
Definition indexed : State :=
  {| db := {[ name := [X; Y; W] ]}; chroma_client := true;
     collection := Some name; stdout := [] |}.

(** A fresh, empty collection. *)
Definition fresh : State :=
  {| db := {[ name := [] ]}; chroma_client := true;
     collection := Some name; stdout := [] |}.

(** An object that has no store yet. *)
Definition blank : State :=
  {| db := ∅; chroma_client := false; collection := None; stdout := [] |}.


Definition question : str := lit "What is discussed about AI?".

Definition options : Options := {| max_sources := Some 2%Z |}.

(** A batch of three chunks. *)
Definition three : list Chunk :=
  _create_chunks
    {| segments := Some [segment "Hello world, this is a test.";
                         segment "We discuss AI and machine learning today.";
                         segment "Thank you."] |}
    no_notes 1000.

(** A candidate far from the query. *)
Definition distant : Retrieved :=
  {| r_content := lit "Thank you"; r_metadata := meta "transcript_segment";
     r_distance := dec 2 1; relevance_score := dec (-7) 10 |}.

(** A key point and a transcript segment of the same text and the same
    distance 2 to the query. *)
Definition far_key_point : Retrieved :=
  {| r_content := lit "AI is the key point"; r_metadata := meta "key_point";
     r_distance := dec 2 1; relevance_score := dec (-1) 1 |}.

Definition far_segment : Retrieved :=
  {| r_content := lit "AI is the key point";
     r_metadata := meta "transcript_segment";
     r_distance := dec 2 1; relevance_score := dec (-1) 1 |}.

(** A candidate at distance 1/2. *)
Definition near_quote : Retrieved :=
  {| r_content := lit "AI is discussed"; r_metadata := meta "quote";
     r_distance := dec 1 2; relevance_score := dec 1 2 |}.

(** The chunks of a transcript of 120 short segments. *)
Definition lecture : list Chunk :=
  _create_chunks {| segments := Some (repeat (segment "And so on.") 120) |}
    no_notes 1000.

(** A transcript of three segments. *)
Definition talk : Transcript :=
  {| segments := Some [segment "Hello world, this is a test.";
                       segment "We discuss AI and machine learning today.";
                       segment "Thank you."] |}.

(** Services whose chat completion fails. *)
Definition mute (distance : Qc) : Ext :=
  {| encode := encode (services true distance);
     nearest := nearest (services true distance);
     chat := fun _ => inl (exn ProviderError "rate limit");
     json_loads := json_loads (services true distance);
     now := now (services true distance) |}.

End Examples.

(** Inequalities over [Qc] as inequalities over [Q]. *)
Ltac qc_to_q :=
  unfold Qcle, Qclt, dec in *;
  cbn [this Qcmult Qcplus Qcminus Qcopp Q2Qc] in *;
  rewrite ?Qred_correct in *.

(** * Properties *)

(** ** Strings *)

Section StringFacts.

Lemma delim_not_space c : is_delim c = true -> isspace c = false.
Proof.
  unfold is_delim. rewrite !orb_true_iff, !Ascii.eqb_eq.
  intros [[-> | ->] | ->]; reflexivity.
Qed.

Lemma truthy_false (x : str) : truthy x = false -> x = [].
Proof. destruct x; [reflexivity | discriminate]. Qed.

Lemma truthy_true (x : str) : truthy x = true -> x <> [].
Proof. destruct x; [discriminate | intros _ ?; discriminate]. Qed.

(** [lstrip] removes a prefix of spaces. *)
Lemma lstrip_split (x : str) :
  exists pre, x = pre ++ lstrip x /\ forallb isspace pre = true.
Proof.
  induction x as [| c x IH]; simpl.
  - exists []. split; reflexivity.
  - destruct (isspace c) eqn:Hc.
    + destruct IH as (pre & Hx & Hpre). exists (c :: pre). split.
      * simpl. f_equal. exact Hx.
      * simpl. rewrite Hc. exact Hpre.
    + exists []. split; reflexivity.
Qed.

(** [strip] removes a prefix and a suffix of spaces. *)
Lemma strip_split (x : str) :
  exists pre post,
    x = pre ++ strip x ++ post
    /\ forallb isspace pre = true /\ forallb isspace post = true.
Proof.
  unfold strip, rstrip.
  destruct (lstrip_split x) as (pre & Hx & Hpre).
  destruct (lstrip_split (rev (lstrip x))) as (q & Hq & Hqs).
  exists pre, (rev q). repeat split.
  - rewrite Hx at 1. f_equal.
    rewrite <- (rev_involutive (lstrip x)) at 1.
    rewrite Hq at 1. rewrite rev_app_distr. reflexivity.
  - exact Hpre.
  - rewrite forallb_forall in *. intros c Hc. apply Hqs.
    apply in_rev. exact Hc.
Qed.

Lemma filter_spaces (p : ascii -> bool) (x : str) :
  (forall c, isspace c = true -> p c = false) ->
  forallb isspace x = true -> List.filter p x = [].
Proof.
  intros Hp. induction x as [| c x IH]; simpl; [reflexivity |].
  rewrite andb_true_iff. intros [Hc Hx]. rewrite (Hp c Hc). auto.
Qed.

(** Whatever keeps no space sees the same text before and after [strip]. *)
Lemma filter_strip (p : ascii -> bool) (x : str) :
  (forall c, isspace c = true -> p c = false) ->
  List.filter p (strip x) = List.filter p x.
Proof.
  intros Hp. destruct (strip_split x) as (pre & post & Hx & Hpre & Hpost).
  rewrite Hx at 2. rewrite !List.filter_app.
  rewrite (filter_spaces p pre Hp Hpre), (filter_spaces p post Hp Hpost).
  rewrite app_nil_r. reflexivity.
Qed.

Lemma strip_incl (x : str) c : In c (strip x) -> In c x.
Proof.
  destruct (strip_split x) as (pre & post & Hx & _). intros Hc.
  rewrite Hx. apply in_or_app. right. apply in_or_app. left. exact Hc.
Qed.

Lemma strip_length (x : str) : (length (strip x) <= length x)%nat.
Proof.
  destruct (strip_split x) as (pre & post & Hx & _).
  rewrite Hx at 2. rewrite !length_app. lia.
Qed.

Lemma lstrip_spaces (x : str) : forallb isspace x = true -> lstrip x = [].
Proof.
  induction x as [| c x IH]; simpl; [reflexivity |].
  rewrite andb_true_iff. intros [-> Hx]. auto.
Qed.

Lemma strip_spaces (x : str) : forallb isspace x = true -> strip x = [].
Proof. intros H. unfold strip. rewrite (lstrip_spaces x H). reflexivity. Qed.

(** The pieces of the sentence splitter hold no delimiter, and every
    character of a piece is a character of the text. *)
Lemma re_split_pieces prev (x : str) p c :
  In p (re_split_from prev x) -> In c p -> is_delim c = false /\ In c x.
Proof.
  revert prev p. induction x as [| d x IH]; intros prev p; simpl.
  - intros [<- | []] [].
  - destruct (is_delim d) eqn:Hd.
    + destruct prev.
      * intros Hp Hc. destruct (IH _ _ Hp Hc). auto.
      * intros [<- | Hp] Hc; [destruct Hc |]. destruct (IH _ _ Hp Hc). auto.
    + destruct (re_split_from false x) as [| q qs] eqn:Hq.
      * intros [<- | []] [<- | []]. auto.
      * specialize (IH false). rewrite Hq in IH.
        intros [<- | Hp] Hc.
        -- destruct Hc as [<- | Hc]; [auto |].
           destruct (IH q (or_introl eq_refl) Hc). auto.
        -- destruct (IH p (or_intror Hp) Hc). auto.
Qed.

(** Whatever keeps no delimiter sees the same text in the pieces. *)
Lemma filter_re_split (p : ascii -> bool) prev (x : str) :
  (forall c, is_delim c = true -> p c = false) ->
  List.filter p (concat (re_split_from prev x)) = List.filter p x.
Proof.
  intros Hp. revert prev. induction x as [| d x IH]; intros prev; simpl.
  - reflexivity.
  - destruct (is_delim d) eqn:Hd.
    + rewrite (Hp d Hd). destruct prev; simpl; apply IH.
    + specialize (IH false).
      destruct (re_split_from false x) as [| q qs]; simpl in *.
      * rewrite <- IH. destruct (p d); reflexivity.
      * rewrite <- IH. destruct (p d); reflexivity.
Qed.

End StringFacts.

(** ** The chunk builder *)

Section ChunkBuilderFacts.

Variable chunk : Chunk.
Variable max_size : Z.

Lemma essence_app x y : essence (x ++ y) = essence x ++ essence y.
Proof. apply List.filter_app. Qed.

Lemma essence_strip x : essence (strip x) = essence x.
Proof.
  apply filter_strip. intros c Hc. rewrite Hc. reflexivity.
Qed.

Lemma essence_re_split x : essence (concat (re_split_sentences x)) = essence x.
Proof.
  apply filter_re_split. intros c Hc. rewrite Hc, orb_true_r. reflexivity.
Qed.

Lemma contents_app l1 l2 : contents (l1 ++ l2) = contents l1 ++ contents l2.
Proof. unfold contents. rewrite map_app, concat_app. reflexivity. Qed.

Lemma split_step_held st sentence :
  held (split_step chunk max_size st sentence) = held st ++ essence sentence.
Proof.
  unfold split_step, held.
  rewrite <- (essence_strip sentence).
  destruct (truthy (strip sentence)) eqn:Hs; simpl.
  - destruct ((len (current_chunk st) + len (strip sentence) >? max_size)%Z
              && truthy (current_chunk st)); simpl.
    + rewrite contents_app, !essence_app. unfold contents at 2. simpl.
      rewrite app_nil_r, essence_strip, <- !app_assoc. reflexivity.
    + destruct (truthy (current_chunk st)) eqn:Hc.
      * rewrite !essence_app, <- !app_assoc. reflexivity.
      * rewrite !essence_app, <- !app_assoc. reflexivity.
  - apply truthy_false in Hs. rewrite Hs. simpl. rewrite app_nil_r.
    reflexivity.
Qed.

Lemma split_loop_held sentences st :
  held (fold_left (split_step chunk max_size) sentences st)
  = held st ++ essence (concat sentences).
Proof.
  revert st. induction sentences as [| x xs IH]; intros st; simpl.
  - rewrite app_nil_r. reflexivity.
  - rewrite IH, split_step_held, essence_app, app_assoc. reflexivity.
Qed.

Lemma split_finish_held st : essence (contents (split_finish chunk st)) = held st.
Proof.
  unfold split_finish, held.
  destruct (truthy (current_chunk st)) eqn:Hc.
  - rewrite contents_app, !essence_app. unfold contents at 2. simpl.
    rewrite app_nil_r, essence_strip. reflexivity.
  - apply truthy_false in Hc. rewrite Hc, app_nil_r. reflexivity.
Qed.

(** A sentence of spaces only leaves the loop state as it is. *)
Lemma split_step_blank st sentence :
  strip sentence = [] -> split_step chunk max_size st sentence = st.
Proof. intros H. unfold split_step. rewrite H. reflexivity. Qed.

Lemma split_loop_blank sentences st :
  Forall (fun x => strip x = []) sentences ->
  fold_left (split_step chunk max_size) sentences st = st.
Proof.
  intros H. revert st. induction H as [| x xs Hx _ IH]; intros st; simpl.
  - reflexivity.
  - rewrite split_step_blank by exact Hx. apply IH.
Qed.

End ChunkBuilderFacts.

Lemma split_all_from chunk_size cands acc :
  fold_left (final_step chunk_size) cands acc
  = acc ++ split_all chunk_size cands.
Proof.
  unfold split_all. revert acc.
  induction cands as [| c cs IH]; intros acc; simpl.
  - rewrite app_nil_r. reflexivity.
  - rewrite IH, (IH (final_step chunk_size [] c)).
    unfold final_step. destruct (len (c_content c) >? chunk_size)%Z; simpl;
      rewrite <- app_assoc; reflexivity.
Qed.

Lemma split_all_cons chunk_size c cands :
  split_all chunk_size (c :: cands)
  = final_step chunk_size [] c ++ split_all chunk_size cands.
Proof. unfold split_all at 1. simpl. apply split_all_from. Qed.

Lemma split_all_app chunk_size l1 l2 :
  split_all chunk_size (l1 ++ l2)
  = split_all chunk_size l1 ++ split_all chunk_size l2.
Proof.
  induction l1 as [| c l1 IH]; simpl; [reflexivity |].
  rewrite !split_all_cons, IH, app_assoc. reflexivity.
Qed.

Section SplitBound.

Variable chunk : Chunk.
Variable max_size : Z.

Lemma no_delim_strip x : no_delim x -> no_delim (strip x).
Proof.
  unfold no_delim. rewrite !forallb_forall. intros H c Hc.
  apply H, strip_incl, Hc.
Qed.

Lemma loose_strip x : loose max_size x -> loose max_size (strip x).
Proof.
  intros [H | H]; [left | right; apply no_delim_strip, H].
  pose proof (strip_length x). unfold len in *. lia.
Qed.

Lemma re_split_no_delim prev (x : str) :
  Forall no_delim (re_split_from prev x).
Proof.
  apply Forall_forall. intros p Hp. unfold no_delim.
  apply forallb_forall. intros c Hc.
  destruct (re_split_pieces prev x p c Hp Hc) as [-> _]. reflexivity.
Qed.

(** A text without delimiter is its own single piece. *)
Lemma re_split_single (x : str) : no_delim x -> re_split_from false x = [x].
Proof.
  unfold no_delim. induction x as [| c x IH]; simpl; [reflexivity |].
  rewrite andb_true_iff, negb_true_iff. intros [-> Hx].
  rewrite (IH Hx). reflexivity.
Qed.

Lemma no_delim_one_sentence (x : str) :
  no_delim x -> (length (sentences_of x) <= 1)%nat.
Proof.
  intros H. unfold sentences_of, re_split_sentences.
  rewrite (re_split_single x H). simpl.
  destruct (truthy (strip x)); simpl; lia.
Qed.

Lemma split_step_inv st sentence :
  no_delim sentence -> split_inv max_size st ->
  split_inv max_size (split_step chunk max_size st sentence).
Proof.
  intros Hs [Hchunks Hcur]. unfold split_step.
  pose proof (no_delim_strip _ Hs) as Hs'.
  destruct (truthy (strip sentence)) eqn:Ht; simpl; [| split; assumption].
  destruct (len (current_chunk st) + len (strip sentence) >? max_size)%Z eqn:Hgt;
    destruct (truthy (current_chunk st)) eqn:Hc; simpl; split; simpl;
    try assumption.
  - apply Forall_app. split; [assumption |].
    constructor; [| constructor]. simpl. apply loose_strip, Hcur.
  - right. exact Hs'.
  - apply truthy_false in Hc. rewrite Hc. right. exact Hs'.
  - left. rewrite Z.gtb_ltb, Z.ltb_ge in Hgt.
    unfold len in *. rewrite !length_app. simpl. lia.
  - apply truthy_false in Hc. rewrite Hc. right. exact Hs'.
Qed.

Lemma split_loop_inv sentences st :
  Forall no_delim sentences -> split_inv max_size st ->
  split_inv max_size (fold_left (split_step chunk max_size) sentences st).
Proof.
  intros H. revert st. induction H as [| x xs Hx _ IH]; intros st Hst; simpl.
  - exact Hst.
  - apply IH, split_step_inv; assumption.
Qed.

Lemma split_large_chunk_loose :
  Forall (fun c => loose max_size (c_content c))
    (_split_large_chunk chunk max_size).
Proof.
  unfold _split_large_chunk.
  assert (split_inv max_size (fold_left (split_step chunk max_size)
                       (re_split_sentences (c_content chunk)) split_init))
    as [Hchunks Hcur].
  { apply split_loop_inv; [apply re_split_no_delim |].
    split; [constructor | right; reflexivity]. }
  unfold split_finish.
  destruct (truthy (current_chunk _)); [| exact Hchunks].
  apply Forall_app. split; [exact Hchunks |].
  constructor; [| constructor]. simpl. apply loose_strip, Hcur.
Qed.

End SplitBound.

(** What the builder does guarantee about sizes: a chunk is one sentence,
    or exceeds the bound by at most the two characters of the separator
    the splitter puts between sentences. *)
Lemma create_chunks_fit_with_separator transcript notes chunk_size :
  Forall (fits (chunk_size + 2)) (_create_chunks transcript notes chunk_size).
Proof.
  unfold _create_chunks.
  induction (candidates transcript notes) as [| c cs IH].
  - constructor.
  - rewrite split_all_cons. apply Forall_app. split; [| exact IH].
    unfold final_step. destruct (len (c_content c) >? chunk_size)%Z eqn:Hgt.
    + simpl. eapply Forall_impl; [| apply split_large_chunk_loose].
      intros c' [H | H]; [left; exact H | right].
      apply no_delim_one_sentence, H.
    + constructor; [| constructor]. left.
      rewrite Z.gtb_ltb, Z.ltb_ge in Hgt. lia.
Qed.

(** C1 (defect of the code). The size invariant fails: with a bound of 23
    characters the splitter joins two sentences of 11 characters with the
    two characters of its separator and emits a chunk of 24 characters
    that is not a single sentence. *)
Theorem split_exceeds_bound :
  let out := _create_chunks Examples.greeting Examples.no_notes 23 in
  map c_content out = [lit "Hello world. Hello again"; lit "Bye now"]
  /\ sentences_of (lit "Hello world. Hello again")
     = [lit "Hello world"; lit "Hello again"]
  /\ ~ Forall (fits 23) out.
Proof.
  split; [reflexivity | split; [reflexivity |]].
  intros H. apply Forall_inv in H. destruct H as [H | H].
  - vm_compute in H. apply H. reflexivity.
  - vm_compute in H. lia.
Qed.

(** C6 (as amended). Splitting a chunk keeps every character that is
    neither a space nor a sentence delimiter, in order: the texts of the
    sub-chunks, one after the other, are the text of the chunk up to
    spaces and the delimiters [.], [!] and [?]. *)
Theorem split_preserves_essence chunk max_size :
  essence (contents (_split_large_chunk chunk max_size))
  = essence (c_content chunk).
Proof.
  unfold _split_large_chunk.
  rewrite split_finish_held, split_loop_held, essence_re_split.
  reflexivity.
Qed.

(** C6 (as stated) fails: the question mark, the exclamation mark and the
    final dot of a section are lost, and a dot appears where there was
    none. *)
Lemma split_loses_delimiters :
  let out := _create_chunks Examples.no_transcript Examples.punctuated 10 in
  map c_content out = [lit "Is it new"; lit "Yes. It is"]
  /\ modulo_whitespace (contents out)
     <> modulo_whitespace (lit "Is it new? Yes! It is.").
Proof. split; [reflexivity | vm_compute; discriminate]. Qed.

(** C8 (defect of the code). A transcript segment, a key point and a quote
    of empty text each become a chunk of empty content; only the text of a
    notes section is tested before it becomes a candidate. *)
Theorem empty_text_chunks_kept :
  let out := _create_chunks Examples.silent_transcript Examples.silent_notes 1000 in
  map (fun c => (m_type (c_metadata c), c_content c)) out
  = [(Some (lit "transcript_segment"), []);
     (Some (lit "key_point"), []);
     (Some (lit "quote"), [])].
Proof. reflexivity. Qed.

(** C10. A candidate longer than the bound whose text holds only spaces
    and sentence delimiters is split into no sub-chunk at all, and the
    output of the builder is the output for the candidates before it
    followed by the output for the candidates after it. *)
Theorem delimiter_only_chunk_vanishes chunk_size before chunk after :
  (len (c_content chunk) > chunk_size)%Z ->
  forallb (fun c => isspace c || is_delim c) (c_content chunk) = true ->
  _split_large_chunk chunk chunk_size = []
  /\ split_all chunk_size (before ++ chunk :: after)
     = split_all chunk_size before ++ split_all chunk_size after.
Proof.
  intros Hlen Hall.
  assert (_split_large_chunk chunk chunk_size = []) as Hsplit.
  { unfold _split_large_chunk. rewrite split_loop_blank; [reflexivity |].
    apply Forall_forall. intros p Hp. apply strip_spaces.
    apply forallb_forall. intros c Hc.
    destruct (re_split_pieces _ _ _ _ Hp Hc) as [Hd Hin].
    rewrite forallb_forall in Hall. specialize (Hall c Hin).
    rewrite Hd, orb_false_r in Hall. exact Hall. }
  split; [exact Hsplit |].
  rewrite split_all_app, split_all_cons. unfold final_step.
  apply Z.gt_lt, Z.ltb_lt in Hlen. rewrite Z.gtb_ltb, Hlen, Hsplit.
  reflexivity.
Qed.

Lemma delimiter_only_chunk_vanishes_witness :
  (len (c_content Examples.dots) > 10)%Z
  /\ _split_large_chunk Examples.dots 10 = []
  /\ split_all 10 ([] ++ Examples.dots :: []) = split_all 10 [] ++ split_all 10 [].
Proof.
  split; [reflexivity |].
  apply (delimiter_only_chunk_vanishes 10 [] Examples.dots []); reflexivity.
Defined.

(** ** The fallback extractor of follow-up questions *)

Section ExtractFacts.

Lemma no_delim_not_qmark x c : no_delim x -> In c x -> Ascii.eqb c "?" = false.
Proof.
  unfold no_delim. rewrite forallb_forall. intros H Hc.
  specialize (H c Hc). rewrite negb_true_iff in H.
  unfold is_delim in H. rewrite !orb_false_iff in H. apply H.
Qed.

Lemma no_delim_has_qmark x : no_delim x -> has_qmark x = false.
Proof.
  intros H. unfold has_qmark.
  destruct (existsb _ x) eqn:He; [| reflexivity].
  apply existsb_exists in He. destruct He as (c & Hc & Heq).
  rewrite (no_delim_not_qmark x c H Hc) in Heq. discriminate.
Qed.

Lemma no_delim_endswith_qmark x : no_delim x -> endswith_qmark x = false.
Proof.
  intros H. unfold endswith_qmark. destruct (rev x) as [| c r] eqn:Hr.
  - reflexivity.
  - apply (no_delim_not_qmark x c H). apply in_rev. rewrite Hr. left.
    reflexivity.
Qed.

Lemma extract_step_skip questions sentence :
  no_delim sentence -> extract_step questions sentence = questions.
Proof.
  intros H. unfold extract_step.
  pose proof (no_delim_strip _ H) as H'.
  rewrite (no_delim_has_qmark _ H'), (no_delim_endswith_qmark _ H').
  reflexivity.
Qed.

Lemma extract_loop_skip sentences questions :
  Forall no_delim sentences ->
  fold_left extract_step sentences questions = questions.
Proof.
  intros H. revert questions.
  induction H as [| x xs Hx _ IH]; intros questions; simpl.
  - reflexivity.
  - rewrite extract_step_skip by exact Hx. apply IH.
Qed.

End ExtractFacts.

(** C9. The fallback extractor returns the empty list for every text: the
    text is first cut at every [.], [!] and [?], so that no piece holds a
    question mark, and only pieces that hold one are kept. *)
Theorem extract_questions_empty text : _extract_questions_from_text text = [].
Proof.
  unfold _extract_questions_from_text.
  rewrite extract_loop_skip by apply re_split_no_delim. reflexivity.
Qed.

(** ** The reranker *)

Section SortedReverseFacts.

Context {A : Type} (key : A -> Qc).

Lemma insert_desc_perm x l : Permutation (insert_desc key x l) (x :: l).
Proof.
  induction l as [| y l IH]; simpl; [reflexivity |].
  destruct (decide (key x < key y)); [| reflexivity].
  rewrite IH. apply perm_swap.
Qed.

Lemma sorted_reverse_perm l : Permutation (sorted_reverse key l) l.
Proof.
  induction l as [| x l IH]; simpl; [reflexivity |].
  rewrite insert_desc_perm, IH. reflexivity.
Qed.

Lemma insert_desc_descending x l :
  Spec.descending key l -> Spec.descending key (insert_desc key x l).
Proof.
  unfold Spec.descending. induction 1 as [| y l Hl IH Hy]; simpl.
  - repeat constructor.
  - destruct (decide (key x < key y)) as [Hlt | Hge].
    + constructor; [exact IH |].
      rewrite (insert_desc_perm x l). constructor; [| exact Hy].
      apply Qclt_le_weak, Hlt.
    + apply Qcnot_lt_le in Hge.
      constructor; [constructor; assumption |].
      constructor; [exact Hge |].
      eapply Forall_impl; [| exact Hy]. simpl. intros z Hz.
      eapply Qcle_trans; eassumption.
Qed.

Lemma sorted_reverse_descending l : Spec.descending key (sorted_reverse key l).
Proof.
  induction l as [| x l IH]; simpl.
  - constructor.
  - apply insert_desc_descending, IH.
Qed.

(** An item moves only past items of a strictly greater key. *)
Lemma insert_desc_ties v x l :
  filter (fun a => key a = v) (insert_desc key x l)
  = filter (fun a => key a = v) (x :: l).
Proof.
  induction l as [| y l IH]; simpl; [reflexivity |].
  destruct (decide (key x < key y)) as [Hlt | Hge]; [| reflexivity].
  rewrite (filter_cons _ y), IH, !filter_cons.
  destruct (decide (key y = v)) as [Hy | Hy];
    destruct (decide (key x = v)) as [Hx | Hx]; try reflexivity.
  exfalso. apply (Qclt_not_eq _ _ Hlt). congruence.
Qed.

Lemma sorted_reverse_ties l : Spec.same_order_of_ties key (sorted_reverse key l) l.
Proof.
  intros v. induction l as [| x l IH]; simpl; [reflexivity |].
  rewrite insert_desc_ties, !filter_cons, IH. reflexivity.
Qed.

End SortedReverseFacts.

Section KeywordFacts.

Lemma is_word_spec c : is_word c = Spec.wordChar c.
Proof.
  destruct c as [[] [] [] [] [] [] [] []]; vm_compute; reflexivity.
Qed.

Lemma lower_char_spec c : lower_char c = Spec.foldChar c.
Proof.
  destruct c as [[] [] [] [] [] [] [] []]; vm_compute; reflexivity.
Qed.

Lemma lower_spec text : lower text = Spec.foldCase text.
Proof. apply map_ext, lower_char_spec. Qed.

(** A text that starts with a word character has a first token. *)
Lemma wordTokens_head c rest :
  Spec.wordChar c = true -> Spec.wordTokens (c :: rest) <> [].
Proof.
  intros Hc. simpl. rewrite Hc. destruct rest as [| d rest]; [discriminate |].
  destruct (Spec.wordChar d); [| discriminate].
  destruct (Spec.wordTokens (d :: rest)); discriminate.
Qed.

(** The scan of the code, with the run [cur] it has read so far, against
    the tokens of the specification. *)
Lemma findall_from_tokens (x : str) : forall cur,
  findall_from cur x
  = match cur with
    | [] => Spec.wordTokens x
    | _ :: _ =>
        match x with
        | [] => [rev cur]
        | c :: _ =>
            if Spec.wordChar c then
              match Spec.wordTokens x with
              | t :: ts => (rev cur ++ t) :: ts
              | [] => [rev cur]
              end
            else rev cur :: Spec.wordTokens x
        end
    end.
Proof.
  induction x as [| c x IH]; intros cur.
  - destruct cur; reflexivity.
  - cbn [findall_from]. rewrite is_word_spec.
    destruct (Spec.wordChar c) eqn:Hc.
    + rewrite IH. cbn [Spec.wordTokens]. rewrite Hc.
      destruct x as [| d x].
      * destruct cur; simpl; rewrite <- ?app_assoc; reflexivity.
      * destruct (Spec.wordChar d) eqn:Hd.
        -- pose proof (wordTokens_head d x Hd) as Hne.
           destruct (Spec.wordTokens (d :: x)) as [| t ts];
             [contradiction |].
           destruct cur; simpl; rewrite <- ?app_assoc; reflexivity.
        -- destruct cur; simpl; rewrite <- ?app_assoc; reflexivity.
    + rewrite IH. cbn [Spec.wordTokens]. rewrite Hc.
      destruct cur; reflexivity.
Qed.

Lemma re_findall_words_spec text :
  re_findall_words (lower text) = Spec.wordTokens (Spec.foldCase text).
Proof.
  unfold re_findall_words. rewrite findall_from_tokens, lower_spec.
  reflexivity.
Qed.

Lemma keywords_distinct text :
  keywords text = list_to_set (Spec.distinctTerms text).
Proof.
  unfold keywords, Spec.distinctTerms. rewrite re_findall_words_spec.
  apply set_eq. intros t.
  rewrite !elem_of_list_to_set, elem_of_remove_dups. reflexivity.
Qed.

Lemma keywords_size text :
  size (keywords text) = length (Spec.distinctTerms text).
Proof.
  rewrite keywords_distinct. apply size_list_to_set, NoDup_remove_dups.
Qed.

Lemma keywords_common_size question content :
  size (keywords question ∩ keywords content)
  = length (filter (fun t => t ∈ Spec.distinctTerms content)
              (Spec.distinctTerms question)).
Proof.
  rewrite <- (size_list_to_set (C := gset str)).
  - f_equal. rewrite !keywords_distinct. apply set_eq. intros t.
    rewrite elem_of_intersection, !elem_of_list_to_set, list_elem_of_filter.
    tauto.
  - apply stdpp.list_relations.list.NoDup_filter, NoDup_remove_dups.
Qed.

Lemma keywords_empty text :
  keywords text = ∅ <-> Spec.distinctTerms text = [].
Proof.
  rewrite <- (leibniz_equiv_iff (keywords text) ∅), <- size_empty_iff.
  rewrite keywords_size. apply length_zero_iff_nil.
Qed.

(** The overlap of the code, on sets, is the overlap of the
    specification, on lists of distinct terms. *)
Lemma keyword_overlap_spec question content :
  keyword_overlap (keywords question) (keywords content)
  = Spec.keywordOverlap question content.
Proof.
  unfold keyword_overlap, Spec.keywordOverlap.
  rewrite keywords_common_size, keywords_size.
  destruct (decide (keywords question = ∅)) as [He | He];
    rewrite keywords_empty in He.
  - rewrite He. reflexivity.
  - destruct (Spec.distinctTerms question); [contradiction | reflexivity].
Qed.

Lemma source_boost_spec metadata :
  source_boost metadata = Spec.sourceTypeBoost (m_type metadata).
Proof. reflexivity. Qed.

(** The score the loop of the code leaves on a candidate, and what it
    leaves of the candidate otherwise. *)
Lemma rescore_spec question chunk :
  Spec.observed (rescore (keywords question) chunk)
  = Spec.scored chunk (Spec.finalScore question chunk).
Proof.
  unfold Spec.observed, Spec.scored, rescore, Spec.finalScore. simpl.
  rewrite keyword_overlap_spec, source_boost_spec. reflexivity.
Qed.

End KeywordFacts.

(** C2. Reranking gives every candidate the score
    [(similarity * 0.7 + keywordOverlap * 0.3) * sourceTypeBoost] of the
    specification, where [keywordOverlap] is the share of the distinct
    case-insensitive word tokens of the question that are tokens of the
    chunk and the boost is 1.2 for a key point, 1.1 for a quote and 1.0
    otherwise. Text, metadata and distance of a candidate stay as they
    are: what is seen of the reranked candidates is, up to their order,
    what is seen of the candidates with their scores replaced by that
    score. *)
Theorem rerank_assigns_final_score question chunks :
  Permutation
    (map (fun c => (r_content c, r_metadata c, r_distance c, relevance_score c))
       (_rerank_chunks question chunks))
    (map (fun c => (r_content c, r_metadata c, r_distance c,
                    Spec.finalScore question c))
       chunks).
Proof.
  unfold _rerank_chunks. rewrite sorted_reverse_perm, map_map.
  apply Permutation_refl'. apply map_ext. intros c.
  apply (rescore_spec question c).
Qed.

(** ** Effects *)

Section EffectFacts.

Variable ext : Ext.

Lemma slice_to_nonneg {A} k (l : list A) :
  (0 <= k)%Z -> slice_to k l = firstn (Z.to_nat k) l.
Proof.
  intros Hk. unfold slice_to.
  destruct (k <? 0)%Z eqn:E; [| reflexivity].
  apply Z.ltb_lt in E. lia.
Qed.

Lemma same_store_refl st : same_store st st.
Proof. repeat split. Qed.

Lemma same_store_trans st1 st2 st3 :
  same_store st1 st2 -> same_store st2 st3 -> same_store st1 st3.
Proof. unfold same_store. intros (-> & -> & ->) (-> & -> & ->). auto. Qed.

Lemma same_store_printed line st : same_store st (printed line st).
Proof. repeat split. Qed.

Lemma collection_missing_same st st' :
  same_store st st' -> collection_missing st -> collection_missing st'.
Proof.
  unfold same_store, collection_missing. intros (-> & -> & _) H. exact H.
Qed.

Lemma generate_embeddings_up texts vs st :
  encode ext texts = inr vs ->
  _generate_embeddings ext texts st = (Return vs, st).
Proof.
  intros H. unfold _generate_embeddings, try_except, call. rewrite H.
  reflexivity.
Qed.

Lemma generate_embeddings_down texts e st :
  encode ext texts = inl e ->
  _generate_embeddings ext texts st
  = (Return (map (fun _ => repeat 0 384) texts),
     printed (lit "Error generating embeddings: " ++ exn_str e) st).
Proof.
  intros H. unfold _generate_embeddings, try_except, call. rewrite H.
  reflexivity.
Qed.

(** [_generate_embeddings] never raises and touches nothing but the
    printed lines. *)
Lemma generate_embeddings_total texts st :
  exists vs st',
    _generate_embeddings ext texts st = (Return vs, st') /\ same_store st st'.
Proof.
  destruct (encode ext texts) as [e | vs] eqn:H.
  - eexists _, _. split; [apply (generate_embeddings_down _ e), H |].
    apply same_store_printed.
  - eexists _, _. split; [apply generate_embeddings_up, H |].
    apply same_store_refl.
Qed.

Lemma generate_embedding_of text v st :
  embeds ext text v ->
  exists vs st',
    _generate_embeddings ext [text] st = (Return (v :: vs), st')
    /\ same_store st st'.
Proof.
  intros [(vs & H) | (e & H & ->)].
  - exists vs, st. split; [apply generate_embeddings_up, H |].
    apply same_store_refl.
  - eexists [], _.
    split; [rewrite (generate_embeddings_down _ e _ H); reflexivity |].
    apply same_store_printed.
Qed.

Lemma records_found method st name es :
  collection st = Some name -> db st !! name = Some es ->
  VectorStore.records method st = (Return (name, es), st).
Proof.
  intros Hc Hd. unfold VectorStore.records, bind, read. simpl.
  rewrite Hc, Hd. reflexivity.
Qed.

Lemma records_missing method st :
  collection_missing st ->
  exists e, VectorStore.records method st = (Raise e, st).
Proof.
  unfold collection_missing, VectorStore.records, bind, read. simpl.
  destruct (collection st) as [name |].
  - intros ->. eexists. reflexivity.
  - intros _. eexists. reflexivity.
Qed.

(** The query path on a collection that exists and a search that
    succeeds. *)
Lemma retrieve_found question k st name es v hits :
  collection st = Some name -> db st !! name = Some es ->
  embeds ext question v ->
  nearest ext es v (k * 2) = inr hits ->
  fst (_retrieve_relevant_chunks ext question k st)
  = Return (slice_to k (_rerank_chunks question (map hit_chunk hits))).
Proof.
  intros Hc Hd Hv Hn.
  destruct (generate_embedding_of question v st Hv) as (vs & st' & Hg & Hs).
  destruct Hs as (Hdb & Hcol & _).
  unfold _retrieve_relevant_chunks, try_except, bind at 1. rewrite Hg.
  cbv beta iota delta [first ret bind VectorStore.query].
  rewrite (records_found _ st' name es) by congruence.
  cbv beta iota delta [snd]. rewrite Hn. reflexivity.
Qed.

(** The query path on a missing collection: the failure is caught, a line
    is printed and no chunk is returned. *)
Lemma retrieve_missing question k st :
  collection_missing st ->
  exists st',
    _retrieve_relevant_chunks ext question k st = (Return [], st')
    /\ same_store st st'.
Proof.
  intros Hm.
  destruct (generate_embeddings_total [question] st) as (vs & st1 & Hg & Hs).
  unfold _retrieve_relevant_chunks, try_except, bind at 1. rewrite Hg.
  destruct vs as [| v vs].
  - eexists. split; [reflexivity |].
    eapply same_store_trans; [exact Hs | apply same_store_printed].
  - cbv beta iota delta [first ret bind VectorStore.query].
    destruct (records_missing "query" st1) as (e & He).
    { eapply collection_missing_same; eassumption. }
    rewrite He. eexists. split; [reflexivity |].
    eapply same_store_trans; [exact Hs | apply same_store_printed].
Qed.

(** Answer generation never raises: a failure of the chat service becomes
    the apology text. *)
Lemma generate_answer_total question chunks st :
  exists st',
    _generate_answer ext question chunks st
    = (Return (answer_text ext question chunks), st')
    /\ same_store st st'.
Proof.
  unfold _generate_answer, answer_text, try_except, bind, call.
  destruct (chat ext _) as [e | content]; simpl.
  - eexists. split; [reflexivity | apply same_store_printed].
  - eexists. split; [reflexivity | apply same_store_refl].
Qed.

Lemma generate_follow_up_total question answer chunks st :
  exists f st',
    _generate_follow_up_questions ext question answer chunks st = (Return f, st')
    /\ same_store st st'.
Proof.
  unfold _generate_follow_up_questions, try_except, bind, call.
  destruct (chat ext _) as [e | content]; simpl.
  - eexists _, _. split; [reflexivity | apply same_store_printed].
  - destruct (json_loads ext _); simpl;
      eexists _, _; (split; [reflexivity | apply same_store_refl]).
Qed.

End EffectFacts.

(** C7. Reranking sorts the rescored candidates by descending score and
    keeps candidates of equal score in the order of the vector search; the
    query path returns the first [k] of them. The result is a function of
    the question, the hits of the search and [k] alone, so that a repeated
    run on the same hits returns the same list. *)
Theorem rerank_sorted_stable_truncated ext st question chunks k name es v hits :
  (0 <= k)%Z ->
  collection st = Some name -> db st !! name = Some es ->
  embeds ext question v ->
  nearest ext es v (k * 2) = inr hits ->
  let scored := map (rescore (keywords question)) chunks in
  let ranked := _rerank_chunks question chunks in
  Permutation ranked scored
  /\ Spec.descending relevance_score ranked
  /\ Spec.same_order_of_ties relevance_score ranked scored
  /\ fst (_retrieve_relevant_chunks ext question k st)
     = Return (firstn (Z.to_nat k)
                 (_rerank_chunks question (map hit_chunk hits))).
Proof.
  intros Hk Hc Hd Hv Hn. unfold _rerank_chunks. repeat split.
  - apply sorted_reverse_perm.
  - apply sorted_reverse_descending.
  - apply sorted_reverse_ties.
  - rewrite (retrieve_found ext question k st name es v hits) by assumption.
    f_equal. apply slice_to_nonneg, Hk.
Qed.

Lemma rerank_sorted_stable_truncated_witness :
  let hits := map (fun e => {| h_document := e_document e;
                               h_metadata := e_metadata e;
                               h_distance := dec 1 2 |})
                  [Examples.X; Examples.Y; Examples.W] in
  let chunks := map hit_chunk hits in
  map r_content (_rerank_chunks Examples.question chunks)
  = [lit "AI is the key point";
     lit "We discuss AI and machine learning today";
     lit "Today we discuss machine learning and AI"]
  /\ Spec.same_order_of_ties relevance_score
       (_rerank_chunks Examples.question chunks)
       (map (rescore (keywords Examples.question)) chunks)
  /\ fst (_retrieve_relevant_chunks (Examples.services true (dec 1 2))
            Examples.question 2 Examples.indexed)
     = Return (firstn 2 (_rerank_chunks Examples.question chunks)).
Proof.
  intros hits chunks.
  split; [vm_compute; reflexivity |].
  assert (0 <= 2)%Z as Hk by lia.
  assert (collection Examples.indexed = Some Examples.name) as Hc
    by reflexivity.
  assert (db Examples.indexed !! Examples.name
          = Some [Examples.X; Examples.Y; Examples.W]) as Hd
    by (vm_compute; reflexivity).
  assert (embeds (Examples.services true (dec 1 2)) Examples.question
            (repeat (dec 1 10) 384)) as Hv
    by (left; exists []; reflexivity).
  assert (nearest (Examples.services true (dec 1 2))
            [Examples.X; Examples.Y; Examples.W] (repeat (dec 1 10) 384)
            (2 * 2) = inr hits) as Hn
    by reflexivity.
  destruct (rerank_sorted_stable_truncated _ _ _ chunks _ _ _ _ _
              Hk Hc Hd Hv Hn) as (_ & _ & Hties & Hret).
  split; assumption.
Defined.

(** ** The confidence estimator *)

Section ConfidenceFacts.

Lemma py_min_le_r a b : py_min a b <= b.
Proof.
  unfold py_min. destruct (decide (b < a)) as [H | H].
  - apply Qcle_refl.
  - apply Qcnot_lt_le, H.
Qed.

(** The upper bound holds for every input. *)
Lemma confidence_at_most_one chunks answer :
  _calculate_confidence chunks answer <= 1.
Proof.
  unfold _calculate_confidence. destruct chunks as [| c cs].
  - apply Qclt_le_weak. reflexivity.
  - apply py_min_le_r.
Qed.

(** Without chunks the confidence is zero. *)
Lemma confidence_no_chunks answer : _calculate_confidence [] answer = 0.
Proof. reflexivity. Qed.

Lemma of_int_nonneg n : 0 <= of_int n.
Proof.
  unfold of_int. rewrite <- Z2Qc_inj_0.
  apply (proj1 (Z2Qc_inj_le 0 (Z.of_nat n))). lia.
Qed.

Lemma of_int_pos n : 0 < of_int (S n).
Proof.
  unfold of_int. rewrite <- Z2Qc_inj_0.
  apply (proj1 (Z2Qc_inj_lt 0 (Z.of_nat (S n)))). lia.
Qed.

Lemma div_nonneg a b : 0 <= a -> 0 < b -> 0 <= a / b.
Proof.
  intros Ha Hb. unfold Qcdiv. apply Qcmult_nonneg_nonneg; [exact Ha |].
  apply Qclt_le_weak, Qcinv_pos, Hb.
Qed.

Lemma py_min_nonneg a b : 0 <= a -> 0 <= b -> 0 <= py_min a b.
Proof. intros Ha Hb. unfold py_min. destruct (decide (b < a)); assumption. Qed.

Lemma fold_sum_nonneg xs acc :
  0 <= acc -> Forall (fun x => 0 <= x) xs -> 0 <= fold_left Qcplus xs acc.
Proof.
  intros Hacc H. revert acc Hacc.
  induction H as [| x xs Hx _ IH]; intros acc Hacc; simpl.
  - exact Hacc.
  - apply IH, Qcplus_nonneg_nonneg; assumption.
Qed.

Lemma py_sum_nonneg xs : Forall (fun x => 0 <= x) xs -> 0 <= py_sum xs.
Proof. apply fold_sum_nonneg, Qcle_refl. Qed.

(** The lower bound holds as long as no cited chunk has a negative
    score. *)
Lemma confidence_nonneg chunks answer :
  Forall (fun c => 0 <= relevance_score c) chunks ->
  0 <= _calculate_confidence chunks answer.
Proof.
  intros H. unfold _calculate_confidence.
  destruct chunks as [| c cs]; [apply Qcle_refl |].
  assert (forall n d, (0 <= n)%Z -> 0 <= dec n d) as Hdec.
  { intros n d Hn. unfold dec, Qcle. cbn [this Q2Qc].
    rewrite !Qred_correct. unfold Qle. simpl. lia. }
  apply py_min_nonneg; [| apply Qclt_le_weak; reflexivity].
  repeat apply Qcplus_nonneg_nonneg;
    apply Qcmult_nonneg_nonneg; try (apply Hdec; lia).
  - apply div_nonneg; [| apply of_int_pos].
    apply py_sum_nonneg. apply Forall_map. exact H.
  - apply py_min_nonneg; [| apply Qclt_le_weak; reflexivity].
    apply div_nonneg; [apply of_int_nonneg | apply (of_int_pos 99)].
  - apply div_nonneg; [apply of_int_nonneg | apply (of_int_pos 3)].
Qed.

End ConfidenceFacts.

(** C3 (defect of the code). The confidence is clamped from above only: a
    cited chunk of negative score (a distance above 1 gives a negative
    similarity) makes the confidence negative. On one chunk of score -0.7
    and an empty answer it is -0.37; on a collection whose records are at
    distance 2 of the query, [answer_question] returns a negative
    confidence. *)
Theorem confidence_negative :
  _calculate_confidence [Examples.distant] [] = dec (-37) 100
  /\ _calculate_confidence [Examples.distant] [] < 0
  /\ exists a st',
       answer_question (Examples.services true (dec 2 1)) Examples.question
         Examples.options Examples.indexed = (Return a, st')
       /\ map src_relevance_score (sources a) = [dec (-64) 100; dec (-64) 100]
       /\ confidence a = dec (-332) 1000
       /\ confidence a < 0.
Proof.
  split; [apply Qc_is_canon; vm_compute; reflexivity |].
  split; [vm_compute; reflexivity |].
  eexists _, _. split; [vm_compute; reflexivity |].
  split; [| split].
  - simpl. repeat f_equal; apply Qc_is_canon; vm_compute; reflexivity.
  - apply Qc_is_canon. vm_compute. reflexivity.
  - vm_compute. reflexivity.
Qed.

(** ** The query path on a missing collection *)

Section MissingCollectionFacts.

Variable ext : Ext.









End MissingCollectionFacts.




(** ** The indexing path *)

Section IndexingFacts.

Variable ext : Ext.

Lemma zip_zero_entries batch :
  VectorStore.zip_entries (map c_id batch) (map c_content batch)
    (map c_metadata batch)
    (map (fun _ => repeat 0 384) (map c_content batch))
  = map zero_entry batch.
Proof.
  induction batch as [| c cs IH]; [reflexivity |].
  cbn [map VectorStore.zip_entries]. rewrite IH. reflexivity.
Qed.

Lemma range_step_single n :
  (0 < n <= 100)%nat -> range_step n batch_size = [0%nat].
Proof.
  intros Hn. unfold range_step, batch_size.
  replace ((n + 100 - 1) / 100)%nat with 1%nat; [reflexivity |].
  apply (Nat.div_unique _ _ 1 (n - 1)); lia.
Qed.

Lemma slice_all {A} (l : list A) :
  (length l <= 100)%nat -> slice 0 batch_size l = l.
Proof. intros H. unfold slice, batch_size. simpl. apply firstn_all2, H. Qed.

(** Adding to a collection that exists. *)
Lemma add_found ids documents metadatas embeddings st name old :
  collection st = Some name -> db st !! name = Some old ->
  length documents = length ids -> length metadatas = length ids ->
  length embeddings = length ids ->
  VectorStore.add ids documents metadatas embeddings st
  = (Return tt,
     set_db (<[name := old ++ VectorStore.zip_entries ids documents
                                metadatas embeddings]> (db st)) st).
Proof.
  intros Hc Hd H1 H2 H3. unfold VectorStore.add, bind at 1.
  rewrite (records_found _ st name old Hc Hd).
  rewrite decide_True by auto. reflexivity.
Qed.

(** One batch, when the embeddings of its texts are [vs]. *)
Lemma store_batch_with batch vs st st1 name old :
  _generate_embeddings ext (map c_content batch) st = (Return vs, st1) ->
  same_store st st1 ->
  length vs = length batch ->
  collection st = Some name -> db st !! name = Some old ->
  store_batch ext batch st
  = (Return tt,
     set_db (<[name := old ++ VectorStore.zip_entries (map c_id batch)
                                (map c_content batch) (map c_metadata batch)
                                vs]> (db st1)) st1).
Proof.
  intros Hg (Hdb & Hcol & _) Hlen Hc Hd. unfold store_batch, bind at 1.
  rewrite Hg. apply add_found; rewrite ?length_map; congruence.
Qed.

Lemma store_chunks_single batch st :
  (0 < length batch <= 100)%nat ->
  _store_chunks ext batch st
  = (store_batch ext batch ;;; ret tt) st.
Proof.
  intros H. unfold _store_chunks.
  rewrite (range_step_single _ H). cbn [for_each].
  rewrite slice_all by lia. reflexivity.
Qed.

End IndexingFacts.

(** C5 (as amended). When the embedding model fails for a batch, the batch
    store call (the body of the loop as well as [_store_chunks] on that
    batch) returns normally, every chunk of the batch is stored with a
    vector of 384 zeros, and the count of the collection grows by the size
    of the batch. The failure is printed on standard output and is not
    reported to the caller: the call returns what it returns when the
    model works. *)
Theorem failed_batch_stored_with_zero_vectors ext st name old batch e :
  collection st = Some name -> db st !! name = Some old ->
  (0 < length batch <= 100)%nat ->
  encode ext (map c_content batch) = inl e ->
  exists st',
    _store_chunks ext batch st = (Return tt, st')
    /\ store_batch ext batch st = (Return tt, st')
    /\ db st' !! name = Some (old ++ map zero_entry batch)
    /\ fst (VectorStore.count st') = Return (length old + length batch)%nat
    /\ stdout st'
       = stdout st ++ [lit "Error generating embeddings: " ++ exn_str e]
    /\ (forall ext' vs,
          encode ext' (map c_content batch) = inr vs ->
          length vs = length batch ->
          fst (_store_chunks ext' batch st) = Return tt).
Proof.
  intros Hc Hd Hlen He.
  pose proof (generate_embeddings_down ext _ e st He) as Hg.
  pose proof (store_batch_with ext batch _ st _ name old Hg
                (same_store_printed _ st)) as Hb.
  rewrite !length_map in Hb. specialize (Hb eq_refl Hc Hd).
  rewrite zip_zero_entries in Hb.
  eexists. split; [| split; [| split; [| split; [| split]]]].
  - rewrite store_chunks_single by exact Hlen.
    unfold bind. rewrite Hb. reflexivity.
  - exact Hb.
  - simpl. apply lookup_insert_eq.
  - unfold VectorStore.count, bind.
    erewrite records_found; [| exact Hc | simpl; apply lookup_insert_eq].
    simpl. rewrite length_app, length_map. reflexivity.
  - reflexivity.
  - intros ext' vs Hvs Hl.
    rewrite store_chunks_single by exact Hlen.
    pose proof (generate_embeddings_up ext' _ vs st Hvs) as Hg'.
    unfold bind.
    rewrite (store_batch_with ext' batch vs st st name old Hg'
               (same_store_refl st) Hl Hc Hd).
    reflexivity.
Qed.

Lemma failed_batch_stored_with_zero_vectors_witness :
  exists st',
    _store_chunks (Examples.services false (dec 1 2)) Examples.three
      Examples.fresh = (Return tt, st')
    /\ store_batch (Examples.services false (dec 1 2)) Examples.three
         Examples.fresh = (Return tt, st')
    /\ db st' !! Examples.name = Some ([] ++ map zero_entry Examples.three)
    /\ fst (VectorStore.count st') = Return (0 + 3)%nat
    /\ stdout st'
       = [] ++ [lit "Error generating embeddings: " ++ lit "model unavailable"]
    /\ (forall ext' vs,
          encode ext' (map c_content Examples.three) = inr vs ->
          length vs = length Examples.three ->
          fst (_store_chunks ext' Examples.three Examples.fresh) = Return tt).
Proof.
  assert (db Examples.fresh !! Examples.name = Some []) as Hd
    by (vm_compute; reflexivity).
  assert (0 < length Examples.three <= 100)%nat as Hlen
    by (vm_compute; lia).
  exact (failed_batch_stored_with_zero_vectors
           (Examples.services false (dec 1 2)) Examples.fresh Examples.name
           [] Examples.three (exn ProviderError "model unavailable")
           eq_refl Hd Hlen eq_refl).
Defined.

(** C5 (as stated) fails on its last part: for a batch of three chunks the
    batch store call and [setup_vector_store] return the same value
    whether the embedding model failed or worked, so the caller is told
    nothing of the failure. *)
Lemma degraded_batch_not_reported :
  let down := Examples.services false (dec 1 2) in
  let up := Examples.services true (dec 1 2) in
  let talk := {| segments := Some [Examples.segment "Hello world, this is a test.";
                                   Examples.segment "We discuss AI and machine learning today.";
                                   Examples.segment "Thank you."] |} in
  fst (_store_chunks down Examples.three Examples.fresh)
  = fst (_store_chunks up Examples.three Examples.fresh)
  /\ fst (setup_vector_store down talk Examples.no_notes 1000 Examples.blank)
     = fst (setup_vector_store up talk Examples.no_notes 1000 Examples.blank)
  /\ ~ (fst (_store_chunks down Examples.three Examples.fresh)
        <> fst (_store_chunks up Examples.three Examples.fresh)).
Proof.
  assert (fst (_store_chunks (Examples.services false (dec 1 2))
                 Examples.three Examples.fresh)
          = fst (_store_chunks (Examples.services true (dec 1 2))
                   Examples.three Examples.fresh)) as H
    by (vm_compute; reflexivity).
  split; [exact H |]. split; [vm_compute; reflexivity |].
  intros Hne. apply Hne. exact H.
Qed.

(** * Further properties of the code *)

(** ** Decimal numbers and trimming *)

Section MoreStringFacts.

Lemma of_nat_inj n m : PyStr.of_nat n = PyStr.of_nat m -> n = m.
Proof.
  unfold PyStr.of_nat. intros H.
  apply DecimalNat.Unsigned.to_uint_inj.
  apply (f_equal string_of_list_ascii) in H.
  rewrite !string_of_list_ascii_of_string in H.
  apply (f_equal NilEmpty.uint_of_string) in H.
  rewrite !NilEmpty.usu in H. congruence.
Qed.

Lemma uint_digits d :
  forallb is_digit (list_ascii_of_string (NilEmpty.string_of_uint d)) = true.
Proof. induction d; simpl; auto. Qed.

Lemma of_nat_digits n : forallb is_digit (PyStr.of_nat n) = true.
Proof. apply uint_digits. Qed.

(** A run of characters of one class followed by nothing or by a
    character outside the class is read back in one way only. *)
Lemma span_unique (P : ascii -> bool) (x x' r r' : str) :
  forallb P x = true -> forallb P x' = true ->
  (r = [] \/ exists c r0, r = c :: r0 /\ P c = false) ->
  (r' = [] \/ exists c r0, r' = c :: r0 /\ P c = false) ->
  x ++ r = x' ++ r' -> x = x' /\ r = r'.
Proof.
  revert x'. induction x as [| a x IH]; intros [| a' x'] Hx Hx' Hr Hr' H;
    simpl in *.
  - auto.
  - exfalso. rewrite andb_true_iff in Hx'. destruct Hx' as [Ha' _].
    destruct Hr as [-> | (c & r0 & -> & Hc)]; [discriminate |].
    injection H as -> _. congruence.
  - exfalso. rewrite andb_true_iff in Hx. destruct Hx as [Ha _].
    destruct Hr' as [-> | (c & r0 & -> & Hc)]; [discriminate |].
    injection H as <- _. congruence.
  - rewrite andb_true_iff in Hx, Hx'. destruct Hx as [_ Hx], Hx' as [_ Hx'].
    injection H as -> H.
    destruct (IH x' Hx Hx' Hr Hr' H) as [-> ->]. auto.
Qed.

Lemma lstrip_no_lead x : no_lead (lstrip x).
Proof.
  induction x as [| c x IH]; simpl; [exact I |].
  destruct (isspace c) eqn:Hc; [exact IH | exact Hc].
Qed.

Lemma no_lead_lstrip x : no_lead x -> lstrip x = x.
Proof. destruct x as [| c x]; simpl; [reflexivity | intros ->; reflexivity]. Qed.

Lemma lstrip_middle l c r :
  isspace c = false -> lstrip (l ++ c :: r) = lstrip l ++ c :: r.
Proof.
  intros Hc. induction l as [| a l IH]; simpl.
  - rewrite Hc. reflexivity.
  - destruct (isspace a); [exact IH | reflexivity].
Qed.

Lemma rstrip_no_lead x : no_lead x -> no_lead (rstrip x).
Proof.
  destruct x as [| c x]; [intros _; exact I |]. simpl. intros Hc.
  unfold rstrip. simpl. rewrite (lstrip_middle _ c [] Hc), rev_app_distr.
  simpl. exact Hc.
Qed.

(** [strip] yields a trimmed text and leaves a trimmed text alone. *)
Lemma strip_trimmed x : trimmed (strip x).
Proof.
  unfold trimmed, strip. split.
  - apply rstrip_no_lead, lstrip_no_lead.
  - unfold rstrip. rewrite rev_involutive. apply lstrip_no_lead.
Qed.

Lemma trimmed_strip x : trimmed x -> strip x = x.
Proof.
  intros [H1 H2]. unfold strip, rstrip.
  rewrite (no_lead_lstrip x H1), (no_lead_lstrip _ H2).
  apply rev_involutive.
Qed.

Lemma strip_idempotent x : strip (strip x) = strip x.
Proof. apply trimmed_strip, strip_trimmed. Qed.

Lemma trimmed_nil : trimmed [].
Proof. split; exact I. Qed.

Lemma no_lead_app x y : x <> [] -> no_lead x -> no_lead (x ++ y).
Proof. destruct x; [contradiction | intros _ H; exact H]. Qed.

(** Two non-empty trimmed texts around anything make a trimmed text. *)
Lemma trimmed_join x m y :
  x <> [] -> y <> [] -> trimmed x -> trimmed y -> trimmed (x ++ m ++ y).
Proof.
  intros Hx Hy [Hx1 _] [_ Hy2]. split.
  - apply no_lead_app; assumption.
  - rewrite !rev_app_distr, <- app_assoc. apply no_lead_app; [| exact Hy2].
    intros H. apply Hy. apply (f_equal (@rev ascii)) in H.
    rewrite rev_involutive in H. exact H.
Qed.

End MoreStringFacts.

(** ** Sub-chunks of the splitter *)

Section SubChunkFacts.

Variable chunk : Chunk.
Variable max_size : Z.

Lemma new_chunk_numbered st :
  truthy (current_chunk st) = true -> split_numbered chunk st ->
  map c_id (chunks st ++ [new_chunk chunk st])
  = map (sub_id chunk) (seq 0 (S (chunk_count st)))
  /\ Forall (fun c => c = with_id_content chunk (c_id c) (c_content c)
                      /\ c_content c <> [] /\ trimmed (c_content c))
       (chunks st ++ [new_chunk chunk st]).
Proof.
  intros Ht (Hids & Hall & Hcur). split.
  - rewrite map_app, Hids, seq_S, map_app. reflexivity.
  - apply Forall_app. split; [exact Hall |].
    constructor; [| constructor]. unfold new_chunk. simpl.
    rewrite (trimmed_strip _ Hcur).
    split; [reflexivity | split; [apply truthy_true, Ht | exact Hcur]].
Qed.

Lemma split_step_numbered st sentence :
  split_numbered chunk st ->
  split_numbered chunk (split_step chunk max_size st sentence).
Proof.
  intros Hst. unfold split_step.
  destruct (truthy (strip sentence)) eqn:Hs; simpl; [| exact Hst].
  destruct (truthy (current_chunk st)) eqn:Hc.
  - destruct (len (current_chunk st) + len (strip sentence) >? max_size)%Z;
      simpl.
    + destruct (new_chunk_numbered st Hc Hst) as [Hids Hall].
      split; [exact Hids | split; [exact Hall | apply strip_trimmed]].
    + destruct Hst as (Hids & Hall & Hcur).
      split; [exact Hids | split; [exact Hall |]]. simpl.
      apply (trimmed_join (current_chunk st) (lit ". ") (strip sentence));
        [apply truthy_true, Hc | apply truthy_true, Hs | exact Hcur
        | apply strip_trimmed].
  - rewrite andb_false_r. simpl. destruct Hst as (Hids & Hall & Hcur).
    split; [exact Hids | split; [exact Hall |]]. simpl.
    apply truthy_false in Hc. rewrite Hc. apply strip_trimmed.
Qed.

Lemma split_loop_numbered sentences st :
  split_numbered chunk st ->
  split_numbered chunk (fold_left (split_step chunk max_size) sentences st).
Proof.
  revert st. induction sentences as [| x xs IH]; intros st Hst; simpl.
  - exact Hst.
  - apply IH, split_step_numbered, Hst.
Qed.

Lemma split_large_chunk_numbered :
  exists n,
    map c_id (_split_large_chunk chunk max_size)
    = map (sub_id chunk) (seq 0 n)
    /\ Forall (fun c => c = with_id_content chunk (c_id c) (c_content c)
                        /\ c_content c <> [] /\ trimmed (c_content c))
         (_split_large_chunk chunk max_size).
Proof.
  unfold _split_large_chunk.
  set (st := fold_left _ _ _).
  assert (split_numbered chunk st) as Hst.
  { apply split_loop_numbered. split; [reflexivity |].
    split; [constructor | apply trimmed_nil]. }
  unfold split_finish. destruct (truthy (current_chunk st)) eqn:Hc.
  - exists (S (chunk_count st)). apply new_chunk_numbered; assumption.
  - exists (chunk_count st). destruct Hst as (Hids & Hall & _). auto.
Qed.

End SubChunkFacts.

(** X1. The sub-chunks of a split chunk are named [<id>_0], [<id>_1], ...
    in order, and each is the chunk it comes from with a new identifier
    and a new text: source, timestamp, speaker, section title and
    metadata are inherited. *)
Theorem sub_chunks_named_in_sequence chunk max_size :
  let out := _split_large_chunk chunk max_size in
  map c_id out = map (sub_id chunk) (seq 0 (length out))
  /\ Forall (fun c => c_source c = c_source chunk
                      /\ c_timestamp c = c_timestamp chunk
                      /\ c_speaker c = c_speaker chunk
                      /\ c_section_title c = c_section_title chunk
                      /\ c_metadata c = c_metadata chunk) out.
Proof.
  destruct (split_large_chunk_numbered chunk max_size) as (n & Hids & Hall).
  simpl. split.
  - assert (length (_split_large_chunk chunk max_size) = n) as ->.
    { rewrite <- (length_map c_id), Hids, length_map, length_seq.
      reflexivity. }
    exact Hids.
  - eapply Forall_impl; [| exact Hall]. simpl.
    intros c (-> & _). simpl. auto.
Qed.

(** X2. The splitter never emits an empty sub-chunk, and the text of a
    sub-chunk neither starts nor ends with a space. *)
Theorem sub_chunks_not_empty chunk max_size :
  Forall (fun c => c_content c <> [] /\ strip (c_content c) = c_content c)
    (_split_large_chunk chunk max_size).
Proof.
  destruct (split_large_chunk_numbered chunk max_size) as (n & _ & Hall).
  eapply Forall_impl; [| exact Hall]. simpl.
  intros c (_ & Hne & Ht). split; [exact Hne | apply trimmed_strip, Ht].
Qed.

(** X3. A chunk whose text is one sentence (it holds no [.], [!] or [?])
    and not only spaces is never cut, whatever the bound: the splitter
    returns the single sub-chunk [<id>_0] with the whole text,
    stripped. *)
Theorem single_sentence_kept_whole chunk max_size :
  no_delim (c_content chunk) -> strip (c_content chunk) <> [] ->
  _split_large_chunk chunk max_size
  = [with_id_content chunk (sub_id chunk 0) (strip (c_content chunk))].
Proof.
  intros Hd Hne. unfold _split_large_chunk, re_split_sentences.
  rewrite (re_split_single _ Hd). simpl.
  unfold split_step. simpl.
  destruct (strip (c_content chunk)) as [| c x] eqn:Hs; [contradiction |].
  simpl. rewrite andb_false_r. unfold split_finish. simpl.
  unfold new_chunk. simpl. rewrite <- Hs, strip_idempotent. reflexivity.
Qed.

Lemma single_sentence_kept_whole_witness :
  _split_large_chunk
    (transcript_chunk 0 (Examples.segment " An endless sentence without any full stop "))
    10
  = [with_id_content
       (transcript_chunk 0 (Examples.segment " An endless sentence without any full stop "))
       (lit "transcript_0_0")
       (lit "An endless sentence without any full stop")].
Proof.
  apply (single_sentence_kept_whole
           (transcript_chunk 0 (Examples.segment " An endless sentence without any full stop ")) 10).
  - reflexivity.
  - vm_compute. discriminate.
Defined.

(** ** Candidates of the builder *)

Section CandidateFacts.

(** A fold of [append] adds one chunk per item and counts it. *)
Lemma fold_append_fst {X} (mk : nat -> X -> Chunk) (g : X -> str) xs acc :
  (forall n x, c_content (mk n x) = g x) ->
  map c_content
    (fst (fold_left (fun acc x => append (fun n => mk n x) acc) xs acc))
  = map c_content (fst acc) ++ map g xs.
Proof.
  intros Hg. revert acc. induction xs as [| x xs IH]; intros acc; simpl.
  - rewrite app_nil_r. reflexivity.
  - rewrite IH. unfold append. simpl.
    rewrite map_app, <- app_assoc. simpl. rewrite Hg. reflexivity.
Qed.

Lemma append_counted mk acc :
  (forall n, candidate_id n (c_id (mk n))) ->
  counted acc -> counted (append mk acc).
Proof.
  intros Hmk [Hn Hl]. unfold append, counted. simpl. split.
  - rewrite length_app. simpl. lia.
  - intros i c Hi. destruct (Nat.lt_ge_cases i (length (fst acc))) as [H | H].
    + rewrite nth_error_app1 in Hi by exact H. apply Hl, Hi.
    + rewrite nth_error_app2 in Hi by exact H.
      destruct (i - length (fst acc))%nat as [| j] eqn:Hj; simpl in Hi.
      * injection Hi as <-. replace (0 + i)%nat with (snd acc) by lia.
        apply Hmk.
      * destruct j; discriminate.
Qed.

Lemma fold_append_counted {X} (mk : nat -> X -> Chunk) xs acc :
  (forall n x, candidate_id n (c_id (mk n x))) ->
  counted acc ->
  counted (fold_left (fun acc x => append (fun n => mk n x) acc) xs acc).
Proof.
  intros Hmk. revert acc. induction xs as [| x xs IH]; intros acc Hacc; simpl.
  - exact Hacc.
  - apply IH, append_counted; [intros n; apply Hmk | exact Hacc].
Qed.

Lemma prefix_id (p : string) n :
  In (lit p) id_prefixes -> candidate_id n (lit p ++ PyStr.of_nat n).
Proof. intros H. exists (lit p). auto. Qed.

Lemma section_step_counted acc section :
  counted acc -> counted (section_step acc section).
Proof.
  intros Hacc. unfold section_step.
  apply fold_append_counted.
  { intros n x. apply (prefix_id "quote_"). simpl. auto. }
  apply fold_append_counted.
  { intros n x. apply (prefix_id "keypoint_"). simpl. auto. }
  destruct (get_truthy (sec_content section)); [| exact Hacc].
  apply append_counted; [| exact Hacc].
  intros n. apply (prefix_id "notes_"). simpl. auto.
Qed.

Lemma section_step_texts acc section :
  map c_content (fst (section_step acc section))
  = map c_content (fst acc) ++ section_texts section.
Proof.
  unfold section_step, section_texts.
  rewrite (fold_append_fst _ (fun x => x)) by reflexivity.
  rewrite (fold_append_fst _ (fun x => x)) by reflexivity.
  rewrite !map_id.
  destruct (get_truthy (sec_content section)); simpl;
    rewrite ?map_app, <- ?app_assoc; reflexivity.
Qed.

Lemma sections_counted secs acc :
  counted acc -> counted (fold_left section_step secs acc).
Proof.
  revert acc. induction secs as [| x xs IH]; intros acc Hacc; simpl.
  - exact Hacc.
  - apply IH, section_step_counted, Hacc.
Qed.

Lemma sections_texts secs acc :
  map c_content (fst (fold_left section_step secs acc))
  = map c_content (fst acc) ++ flat_map section_texts secs.
Proof.
  revert acc. induction secs as [| x xs IH]; intros acc; simpl.
  - rewrite app_nil_r. reflexivity.
  - rewrite IH, section_step_texts, <- app_assoc. reflexivity.
Qed.

Lemma candidates_numbered transcript notes :
  numbered 0 (candidates transcript notes).
Proof.
  unfold candidates. apply sections_counted.
  apply fold_append_counted.
  - intros n x. apply (prefix_id "transcript_"). simpl. auto.
  - split; [reflexivity |]. intros [| i] c H; discriminate.
Qed.

Lemma candidates_texts transcript notes :
  map c_content (candidates transcript notes)
  = candidate_texts transcript notes.
Proof.
  unfold candidates, candidate_texts.
  rewrite sections_texts.
  rewrite (fold_append_fst _ (fun segment => get (seg_text segment) []))
    by reflexivity.
  reflexivity.
Qed.

Lemma split_all_flat_map chunk_size cands :
  split_all chunk_size cands = flat_map (final_step chunk_size []) cands.
Proof.
  induction cands as [| c cs IH]; [reflexivity |].
  rewrite split_all_cons, IH. reflexivity.
Qed.

Lemma split_all_within chunk_size cands :
  Forall (fun c => (len (c_content c) <= chunk_size)%Z) cands ->
  split_all chunk_size cands = cands.
Proof.
  induction 1 as [| c cs Hc _ IH]; [reflexivity |].
  rewrite split_all_cons, IH. unfold final_step.
  rewrite Z.gtb_ltb. destruct (chunk_size <? len (c_content c))%Z eqn:E.
  - apply Z.ltb_lt in E. lia.
  - reflexivity.
Qed.

End CandidateFacts.

(** X4. When no text exceeds the bound, the builder returns one chunk per
    text and leaves the texts as they are: the texts of the segments in
    order, then for every section its own text if it is not empty, its
    key points and its quotes. *)
Theorem texts_within_bound_unchanged transcript notes chunk_size :
  Forall (fun x => (len x <= chunk_size)%Z) (candidate_texts transcript notes) ->
  map c_content (_create_chunks transcript notes chunk_size)
  = candidate_texts transcript notes.
Proof.
  intros H. unfold _create_chunks.
  rewrite split_all_within; [apply candidates_texts |].
  rewrite <- candidates_texts in H.
  apply List.Forall_forall. intros c Hc.
  rewrite List.Forall_forall in H. apply H, in_map, Hc.
Qed.

Lemma texts_within_bound_unchanged_witness :
  map c_content
    (_create_chunks
       {| segments := Some [Examples.segment "Hello world, this is a test.";
                            Examples.segment "We discuss AI and machine learning today."] |}
       {| sections := Some [Examples.section (Some (lit "AI matters."))
                              (Some [lit "AI is the key point"]) None] |}
       1000)
  = [lit "Hello world, this is a test.";
     lit "We discuss AI and machine learning today.";
     lit "AI matters."; lit "AI is the key point"].
Proof.
  apply (texts_within_bound_unchanged
           {| segments := Some [Examples.segment "Hello world, this is a test.";
                                Examples.segment "We discuss AI and machine learning today."] |}
           {| sections := Some [Examples.section (Some (lit "AI matters."))
                                  (Some [lit "AI is the key point"]) None] |}
           1000).
  vm_compute. repeat constructor; discriminate.
Defined.

(** X5. Over the whole builder nothing but spaces and sentence delimiters
    is lost, and the order of the texts is kept: the output, read in
    order, holds the characters of the candidate texts, read in order, up
    to spaces and the delimiters [.], [!] and [?]. *)
Theorem builder_keeps_text transcript notes chunk_size :
  essence (contents (_create_chunks transcript notes chunk_size))
  = essence (concat (candidate_texts transcript notes)).
Proof.
  rewrite <- candidates_texts. unfold _create_chunks.
  fold (contents (candidates transcript notes)).
  induction (candidates transcript notes) as [| c cs IH]; [reflexivity |].
  rewrite split_all_cons, contents_app, essence_app, IH.
  change (contents (c :: cs)) with (c_content c ++ contents cs).
  rewrite essence_app. f_equal.
  unfold final_step. destruct (len (c_content c) >? chunk_size)%Z; simpl.
  - unfold _split_large_chunk.
    rewrite split_finish_held, split_loop_held, essence_re_split.
    reflexivity.
  - unfold contents. simpl. rewrite app_nil_r. reflexivity.
Qed.

(** ** Identifiers *)

Section IdentifierFacts.

Lemma prefix_unique p p' x x' :
  In p id_prefixes -> In p' id_prefixes -> p ++ x = p' ++ x' ->
  p = p' /\ x = x'.
Proof.
  unfold id_prefixes. simpl.
  intros [<- | [<- | [<- | [<- | []]]]] [<- | [<- | [<- | [<- | []]]]] H;
    try discriminate H; split; try reflexivity;
    exact (app_inv_head _ _ _ H).
Qed.

Lemma underscore_not_digit : is_digit "_" = false.
Proof. reflexivity. Qed.

(** The number of the candidate an identifier descends from is read off
    the identifier. *)
Lemma descends_from_unique n m id :
  descends_from n id -> descends_from m id -> n = m.
Proof.
  intros (p & rest & (q & Hq & ->) & -> & Hrest)
         (p' & rest' & (q' & Hq' & ->) & H & Hrest').
  rewrite <- !app_assoc in H.
  destruct (prefix_unique _ _ _ _ Hq Hq' H) as [_ H'].
  apply of_nat_inj.
  apply (span_unique is_digit _ _ rest rest'); try apply of_nat_digits;
    try exact H'.
  - destruct Hrest as [-> | (k & ->)]; [left; reflexivity | right].
    eexists _, _. split; [reflexivity | apply underscore_not_digit].
  - destruct Hrest' as [-> | (k & ->)]; [left; reflexivity | right].
    eexists _, _. split; [reflexivity | apply underscore_not_digit].
Qed.

(** Blocks that are free of repetitions and carry each its own number make
    a list free of repetitions. *)
Lemma NoDup_numbered_blocks {A} (K : nat -> A -> Prop) blocks off :
  (forall x i j, K i x -> K j x -> i = j) ->
  (forall i b, nth_error blocks i = Some b ->
               List.NoDup b /\ forall x, In x b -> K (off + i)%nat x) ->
  List.NoDup (concat blocks).
Proof.
  intros HK. revert off. induction blocks as [| b bs IH]; intros off H; simpl.
  - constructor.
  - destruct (H 0%nat b eq_refl) as [Hb Hkb].
    assert (forall i b', nth_error bs i = Some b' ->
              List.NoDup b' /\ forall x, In x b' -> K (S off + i)%nat x) as H'.
    { intros i b' Hi. destruct (H (S i) b' Hi) as [Hn Hk]. split; [exact Hn |].
      intros x Hx. replace (S off + i)%nat with (off + S i)%nat by lia. auto. }
    apply List.NoDup_app; [exact Hb | apply (IH (S off) H') |].
    intros x Hx Hin. apply in_concat in Hin. destruct Hin as (b' & Hb' & Hxb').
    apply In_nth_error in Hb'. destruct Hb' as (i & Hi).
    destruct (H' i b' Hi) as [_ Hk].
    pose proof (HK x _ _ (Hkb x Hx) (Hk x Hxb')). lia.
Qed.

Lemma sub_id_inj chunk k k' : sub_id chunk k = sub_id chunk k' -> k = k'.
Proof.
  unfold sub_id. intros H. apply app_inv_head in H. apply app_inv_head in H.
  apply of_nat_inj, H.
Qed.

(** The identifiers of what the builder makes of one candidate. *)
Lemma final_step_ids chunk_size n c :
  candidate_id n (c_id c) ->
  List.NoDup (map c_id (final_step chunk_size [] c))
  /\ forall id, In id (map c_id (final_step chunk_size [] c)) ->
                descends_from n id.
Proof.
  intros Hc. unfold final_step.
  destruct (len (c_content c) >? chunk_size)%Z; simpl.
  - destruct (split_large_chunk_numbered c chunk_size) as (m & -> & _). split.
    + apply Finite.Injective_map_NoDup; [| apply List.seq_NoDup].
      intros k k'. apply sub_id_inj.
    + intros id Hid. apply in_map_iff in Hid. destruct Hid as (k & <- & _).
      exists (c_id c), (lit "_" ++ PyStr.of_nat k).
      split; [exact Hc | split; [reflexivity | right; eauto]].
  - split; [repeat constructor; intros [] |].
    intros id [<- | []]. exists (c_id c), []. rewrite app_nil_r. auto.
Qed.

End IdentifierFacts.

(** X6. The identifiers of the chunks the builder returns are pairwise
    different, sub-chunks included. *)
Theorem chunk_ids_unique transcript notes chunk_size :
  List.NoDup (map c_id (_create_chunks transcript notes chunk_size)).
Proof.
  unfold _create_chunks. rewrite split_all_flat_map.
  rewrite flat_map_concat_map, concat_map, map_map.
  apply (NoDup_numbered_blocks descends_from _ 0).
  - intros x i j. apply descends_from_unique.
  - intros i b Hi. rewrite nth_error_map in Hi.
    destruct (nth_error (candidates transcript notes) i) as [c |] eqn:Hc;
      simpl in Hi; [| discriminate].
    injection Hi as <-.
    apply final_step_ids.
    apply (candidates_numbered transcript notes i c Hc).
Qed.

(** ** Scores *)

Section ScoreFacts.

Lemma of_int_le n m : (n <= m)%nat -> of_int n <= of_int m.
Proof.
  intros H. unfold of_int.
  apply (proj1 (Z2Qc_inj_le (Z.of_nat n) (Z.of_nat m))). lia.
Qed.

Lemma div_le_one a b : a <= b -> 0 < b -> a / b <= 1.
Proof.
  intros Hab Hb. unfold Qcdiv.
  rewrite <- (Qcmult_inv_r b) by (intros ->; exact (Qclt_not_eq _ _ Hb eq_refl)).
  apply Qcmult_le_mono_nonneg_r; [| exact Hab].
  apply Qclt_le_weak, Qcinv_pos, Hb.
Qed.

Lemma source_boost_cases metadata :
  source_boost metadata = dec 12 10 \/ source_boost metadata = dec 11 10
  \/ source_boost metadata = 1.
Proof.
  unfold source_boost. repeat case_decide; auto.
Qed.

Lemma keyword_overlap_bounds (qk ck : gset str) :
  0 <= keyword_overlap qk ck /\ keyword_overlap qk ck <= 1.
Proof.
  unfold keyword_overlap. destruct (decide (qk = ∅)) as [He | He].
  - split; [apply Qcle_refl | apply Qclt_le_weak; reflexivity].
  - assert (size qk <> 0%nat) as Hs.
    { intros H. apply He, leibniz_equiv, size_empty_iff, H. }
    destruct (size qk) as [| n] eqn:Hn; [contradiction |]. split.
    + apply div_nonneg; [apply of_int_nonneg | apply of_int_pos].
    + apply div_le_one; [| apply of_int_pos].
      apply of_int_le. rewrite <- Hn. apply subseteq_size.
      apply intersection_subseteq_l.
Qed.

Lemma rescore_nonneg qk chunk :
  0 <= relevance_score chunk -> 0 <= relevance_score (rescore qk chunk).
Proof.
  intros Hs. unfold rescore. simpl.
  destruct (keyword_overlap_bounds qk (keywords (r_content chunk))) as [Ho _].
  destruct (source_boost_cases (r_metadata chunk)) as [-> | [-> | ->]];
    qc_to_q; nra.
Qed.

End ScoreFacts.

(** X8. The keyword overlap of the reranker is a share: it lies between 0
    and 1 for every question and every chunk. *)
Theorem keyword_overlap_is_a_share question content :
  0 <= keyword_overlap (keywords question) (keywords content)
  /\ keyword_overlap (keywords question) (keywords content) <= 1.
Proof. apply keyword_overlap_bounds. Qed.

(** X9. A candidate whose similarity lies between 0 and 1 (a distance
    between 0 and 1) gets a score between 0 and 1.2. *)
Theorem rescore_within_bounds question chunk :
  0 <= relevance_score chunk -> relevance_score chunk <= 1 ->
  0 <= relevance_score (rescore (keywords question) chunk)
  /\ relevance_score (rescore (keywords question) chunk) <= dec 12 10.
Proof.
  intros H0 H1. split; [apply rescore_nonneg, H0 |].
  unfold rescore. simpl.
  destruct (keyword_overlap_bounds (keywords question)
              (keywords (r_content chunk))) as [Ho0 Ho1].
  destruct (source_boost_cases (r_metadata chunk)) as [-> | [-> | ->]];
    qc_to_q; nra.
Qed.

Lemma rescore_within_bounds_witness :
  0 <= relevance_score (rescore (keywords Examples.question) Examples.near_quote)
  /\ relevance_score (rescore (keywords Examples.question) Examples.near_quote)
     <= dec 12 10.
Proof.
  apply (rescore_within_bounds Examples.question Examples.near_quote);
    vm_compute; discriminate.
Defined.

(** X10. The boost of a key point multiplies a negative score as well: of
    a key point and a plain segment with the same text and the same
    similarity, the key point is ranked second when their combined score
    is negative, although the vector search had it first. *)
Theorem key_point_boost_demotes_negative question c c' :
  r_content c = r_content c' ->
  relevance_score c = relevance_score c' ->
  m_type (r_metadata c) = Some (lit "key_point") ->
  m_type (r_metadata c') = Some (lit "transcript_segment") ->
  relevance_score (rescore (keywords question) c') < 0 ->
  _rerank_chunks question [c; c']
  = [rescore (keywords question) c'; rescore (keywords question) c].
Proof.
  intros Hc Hs Ht Ht' Hneg. unfold _rerank_chunks. simpl.
  rewrite decide_True; [reflexivity |].
  revert Hneg. unfold rescore, source_boost. simpl.
  rewrite Hc, Hs, Ht, Ht'.
  rewrite (decide_True (P := Some (lit "key_point") = Some (lit "key_point")))
    by reflexivity.
  rewrite !decide_False by (vm_compute; discriminate).
  intros Hneg. qc_to_q. lra.
Qed.

Lemma key_point_boost_demotes_negative_witness :
  _rerank_chunks Examples.question [Examples.far_key_point; Examples.far_segment]
  = [rescore (keywords Examples.question) Examples.far_segment;
     rescore (keywords Examples.question) Examples.far_key_point].
Proof.
  apply (key_point_boost_demotes_negative Examples.question
           Examples.far_key_point Examples.far_segment);
    reflexivity.
Defined.

(** X7. Every chunk the builder returns is one sentence, or exceeds the
    bound by at most the two characters of the separator the splitter
    puts between sentences. *)
Theorem chunks_fit_with_separator transcript notes chunk_size :
  Forall (fun c => (len (c_content c) <= chunk_size + 2)%Z
                   \/ (length (sentences_of (c_content c)) <= 1)%nat)
    (_create_chunks transcript notes chunk_size).
Proof. apply create_chunks_fit_with_separator. Qed.

(** X11. As long as no cited chunk has a negative score, the confidence
    lies between 0 and 1, whatever the answer. *)
Theorem confidence_within_unit chunks answer :
  Forall (fun c => 0 <= relevance_score c) chunks ->
  0 <= _calculate_confidence chunks answer
  /\ _calculate_confidence chunks answer <= 1.
Proof.
  intros H. split; [apply confidence_nonneg, H | apply confidence_at_most_one].
Qed.

Lemma confidence_within_unit_witness :
  0 <= _calculate_confidence [Examples.near_quote] (lit "AI is discussed.")
  /\ _calculate_confidence [Examples.near_quote] (lit "AI is discussed.") <= 1.
Proof.
  apply (confidence_within_unit [Examples.near_quote] (lit "AI is discussed.")).
  repeat constructor. vm_compute. discriminate.
Defined.

(** ** Indexing in batches *)

Section BatchFacts.

Variable ext : Ext.

Lemma for_each_map {A B} (f : A -> B) (l : list A) (body : B -> Py unit) :
  for_each (map f l) body = for_each l (fun x => body (f x)).
Proof.
  induction l as [| x l IH]; simpl; [reflexivity |]. rewrite IH. reflexivity.
Qed.

Lemma store_chunks_batches chunks :
  _store_chunks ext chunks = for_each (batches chunks) (store_batch ext).
Proof. unfold _store_chunks, batches. rewrite for_each_map. reflexivity. Qed.

(** Cutting a list into [m] slices of 100 gives the list back when [m]
    slices are enough. *)
Lemma slices_partition {A} m (l : list A) :
  (length l <= m * 100)%nat ->
  concat (map (fun j => slice (j * 100) 100 l) (seq 0 m)) = l.
Proof.
  revert l. induction m as [| m IH]; intros l Hl.
  - destruct l; [reflexivity | simpl in Hl; lia].
  - change (seq 0 (S m)) with (0%nat :: seq 1 m).
    rewrite <- seq_shift. cbn [map concat]. rewrite map_map.
    transitivity (firstn 100 l ++ skipn 100 l); [| apply firstn_skipn].
    f_equal.
    etransitivity;
      [| apply (IH (skipn 100 l)); rewrite length_skipn; lia].
    f_equal. apply map_ext. intros j. unfold slice.
    rewrite skipn_skipn. f_equal. f_equal. lia.
Qed.

Lemma enough_slices n : (n <= ((n + 100 - 1) / 100) * 100)%nat.
Proof.
  pose proof (Nat.div_mod_eq (n + 100 - 1) 100) as H.
  pose proof (Nat.mod_upper_bound (n + 100 - 1) 100). lia.
Qed.

Lemma range_step_batches stop :
  range_step stop batch_size
  = map (fun j => j * 100)%nat (seq 0 ((stop + 100 - 1) / 100)).
Proof. reflexivity. Qed.

Lemma batches_partition chunks : concat (batches chunks) = chunks.
Proof.
  unfold batches. rewrite range_step_batches, map_map.
  apply slices_partition, enough_slices.
Qed.

Lemma batches_sizes chunks :
  Forall (fun b => (0 < length b <= 100)%nat) (batches chunks).
Proof.
  unfold batches. rewrite range_step_batches, map_map.
  apply List.Forall_forall. intros b Hb. apply in_map_iff in Hb.
  destruct Hb as (j & <- & Hj). apply in_seq in Hj.
  unfold slice, batch_size. rewrite length_firstn, length_skipn.
  assert (j * 100 < length chunks)%nat; [| lia].
  pose proof (Nat.div_mod_eq (length chunks + 100 - 1) 100) as H.
  pose proof (Nat.mod_upper_bound (length chunks + 100 - 1) 100).
  assert (j + 1 <= (length chunks + 100 - 1) / 100)%nat by lia.
  nia.
Qed.

Lemma generate_embeddings_vectors texts st :
  exists st',
    _generate_embeddings ext texts st = (Return (vectors ext texts), st')
    /\ same_store st st'.
Proof.
  unfold vectors. destruct (encode ext texts) as [e | vs] eqn:H.
  - eexists. split; [apply (generate_embeddings_down _ _ e), H |].
    apply same_store_printed.
  - exists st. split; [apply generate_embeddings_up, H |].
    apply same_store_refl.
Qed.

Lemma vectors_length batch :
  answers_in_full ext batch ->
  length (vectors ext (map c_content batch)) = length batch.
Proof.
  unfold answers_in_full, vectors.
  destruct (encode ext (map c_content batch)); [| auto].
  intros _. rewrite !length_map. reflexivity.
Qed.

Lemma zip_entries_of batch vs :
  length vs = length batch ->
  Forall2 entry_of batch
    (VectorStore.zip_entries (map c_id batch) (map c_content batch)
       (map c_metadata batch) vs).
Proof.
  revert vs. induction batch as [| c cs IH]; intros [| v vs] H;
    simpl in *; try discriminate; constructor.
  - repeat split.
  - apply IH. lia.
Qed.

Lemma batch_entries_of batch :
  answers_in_full ext batch -> Forall2 entry_of batch (batch_entries ext batch).
Proof. intros H. apply zip_entries_of, vectors_length, H. Qed.

Lemma all_entries_of bs :
  Forall (answers_in_full ext) bs ->
  Forall2 entry_of (concat bs) (flat_map (batch_entries ext) bs).
Proof.
  induction 1 as [| b bs Hb _ IH]; simpl; [constructor |].
  apply Forall2_app; [apply batch_entries_of, Hb | exact IH].
Qed.

(** The loop over the batches, on a collection that exists. *)
Lemma store_loop name bs st old :
  collection st = Some name -> db st !! name = Some old ->
  Forall (answers_in_full ext) bs ->
  exists st',
    for_each bs (store_batch ext) st = (Return tt, st')
    /\ db st' = <[name := old ++ flat_map (batch_entries ext) bs]> (db st)
    /\ collection st' = collection st
    /\ chroma_client st' = chroma_client st.
Proof.
  intros Hc Hd Hbs. revert st old Hc Hd.
  induction Hbs as [| b bs Hb _ IH]; intros st old Hc Hd.
  - exists st. simpl. rewrite app_nil_r, insert_id by exact Hd. auto.
  - destruct (generate_embeddings_vectors (map c_content b) st)
      as (st1 & Hg & Hs).
    pose proof (store_batch_with ext b _ st st1 name old Hg Hs
                  (vectors_length b Hb) Hc Hd) as Hstore.
    fold (batch_entries ext b) in Hstore.
    destruct Hs as (Hdb & Hcol & Hcl).
    destruct (IH (set_db (<[name := old ++ batch_entries ext b]> (db st1)) st1)
                 (old ++ batch_entries ext b))
      as (st' & Hrun & Hdb' & Hcol' & Hcl').
    { simpl. congruence. }
    { simpl. apply lookup_insert_eq. }
    exists st'. cbn [for_each]. unfold bind. rewrite Hstore.
    split; [exact Hrun |]. simpl in *.
    rewrite Hdb', insert_insert_eq, Hdb, <- app_assoc.
    repeat split; congruence.
Qed.

End BatchFacts.

(** X12. [_store_chunks] works through the chunks in consecutive batches
    of at most 100: the batches are not empty, none holds more than 100
    chunks, and one after the other they are the list of chunks. *)
Theorem store_chunks_in_batches_of_100 ext chunks :
  _store_chunks ext chunks = for_each (batches chunks) (store_batch ext)
  /\ concat (batches chunks) = chunks
  /\ Forall (fun b => (0 < length b <= 100)%nat) (batches chunks).
Proof.
  split; [apply store_chunks_batches |].
  split; [apply batches_partition | apply batches_sizes].
Qed.

(** The whole loop of [_store_chunks]. *)
Lemma store_chunks_run ext st name old chunks :
  collection st = Some name -> db st !! name = Some old ->
  Forall (answers_in_full ext) (batches chunks) ->
  exists st' new,
    _store_chunks ext chunks st = (Return tt, st')
    /\ db st' = <[name := old ++ new]> (db st)
    /\ Forall2 entry_of chunks new
    /\ collection st' = collection st
    /\ fst (VectorStore.count st') = Return (length old + length chunks)%nat.
Proof.
  intros Hc Hd Hb.
  destruct (store_loop ext name (batches chunks) st old Hc Hd Hb)
    as (st' & Hrun & Hdb & Hcol & _).
  pose proof (all_entries_of ext _ Hb) as Hall.
  rewrite batches_partition in Hall.
  exists st', (flat_map (batch_entries ext) (batches chunks)).
  rewrite store_chunks_batches.
  repeat split; try assumption.
  unfold VectorStore.count, bind.
  rewrite (records_found "count" st' name
             (old ++ flat_map (batch_entries ext) (batches chunks)));
    [| congruence | rewrite Hdb; apply lookup_insert_eq].
  simpl. rewrite length_app. apply Forall2_length in Hall.
  rewrite <- Hall. reflexivity.
Qed.

(** X13. On a collection that exists, and with an embedding model that
    gives one vector per text whenever it answers, [_store_chunks] returns
    normally for any number of chunks, whether the model fails on some
    batches or not. It appends exactly one record per chunk, in the order
    of the chunks and with the id, text and metadata of its chunk; the
    count grows by the number of chunks and no other collection is
    touched. *)
Theorem store_chunks_one_record_per_chunk ext st name old chunks :
  collection st = Some name -> db st !! name = Some old ->
  Forall (answers_in_full ext) (batches chunks) ->
  exists st' new,
    _store_chunks ext chunks st = (Return tt, st')
    /\ db st' = <[name := old ++ new]> (db st)
    /\ Forall2 entry_of chunks new
    /\ collection st' = collection st
    /\ fst (VectorStore.count st') = Return (length old + length chunks)%nat.
Proof. apply store_chunks_run. Qed.

Lemma store_chunks_one_record_per_chunk_witness :
  exists st' new,
    _store_chunks (Examples.services false (dec 1 2)) Examples.lecture
      Examples.fresh = (Return tt, st')
    /\ db st' = <[Examples.name := [] ++ new]> (db Examples.fresh)
    /\ Forall2 entry_of Examples.lecture new
    /\ collection st' = collection Examples.fresh
    /\ fst (VectorStore.count st')
       = Return (length (@nil Entry) + length Examples.lecture)%nat.
Proof.
  assert (db Examples.fresh !! Examples.name = Some []) as Hd
    by (vm_compute; reflexivity).
  assert (Forall (answers_in_full (Examples.services false (dec 1 2)))
            (batches Examples.lecture)) as Hb
    by (apply List.Forall_forall; intros b _; exact I).
  exact (store_chunks_one_record_per_chunk
           (Examples.services false (dec 1 2)) Examples.fresh Examples.name
           [] Examples.lecture eq_refl Hd Hb).
Defined.

(** ** Building, inspecting and clearing a collection *)

Section LifecycleFacts.

Variable ext : Ext.

Lemma count_found st name es :
  collection st = Some name -> db st !! name = Some es ->
  VectorStore.count st = (Return (length es), st).
Proof.
  intros Hc Hd. unfold VectorStore.count, bind.
  rewrite (records_found "count" st name es Hc Hd). reflexivity.
Qed.

Lemma count_missing st :
  collection_missing st -> exists e, VectorStore.count st = (Raise e, st).
Proof.
  intros Hm. destruct (records_missing "count" st Hm) as (e & He).
  exists e. unfold VectorStore.count, bind. rewrite He. reflexivity.
Qed.

Lemma stats_found st name es :
  collection st = Some name -> db st !! name = Some es ->
  get_collection_stats st
  = (Return (Some {| stats_total_chunks := length es;
                     stats_collection_name := name;
                     stats_embedding_model :=
                       lit "sentence-transformers/all-MiniLM-L6-v2" |}), st).
Proof.
  intros Hc Hd. unfold get_collection_stats, bind at 1, read.
  rewrite Hc. unfold try_except, bind.
  rewrite (count_found st name es Hc Hd). reflexivity.
Qed.

(** [setup_vector_store] under a free name. *)
Lemma setup_run st transcript notes chunk_size :
  db st !! (lit "video_content_" ++ now ext) = None ->
  Forall (answers_in_full ext)
    (batches (_create_chunks transcript notes chunk_size)) ->
  exists st' new,
    setup_vector_store ext transcript notes chunk_size st
    = (Return {| collection_name := lit "video_content_" ++ now ext;
                 total_chunks :=
                   length (_create_chunks transcript notes chunk_size);
                 chunk_size := chunk_size |}, st')
    /\ collection st' = Some (lit "video_content_" ++ now ext)
    /\ chroma_client st' = true
    /\ db st' = <[lit "video_content_" ++ now ext := new]> (db st)
    /\ Forall2 entry_of (_create_chunks transcript notes chunk_size) new.
Proof.
  intros Hfree Hb.
  set (name := lit "video_content_" ++ now ext) in *.
  set (chunks := _create_chunks transcript notes chunk_size) in *.
  set (st2 := set_collection (Some name)
                (set_db (<[name := []]> (db st)) (set_chroma_client true st))).
  destruct (store_chunks_run ext st2 name [] chunks eq_refl
              (lookup_insert_eq _ _ _) Hb)
    as (st' & new & Hrun & Hdb & Hall & Hcol & _).
  destruct (store_loop ext name (batches chunks) st2 [] eq_refl
              (lookup_insert_eq _ _ _) Hb) as (st'' & Hrun' & _ & _ & Hcl).
  rewrite <- store_chunks_batches, Hrun in Hrun'.
  injection Hrun' as <-.
  exists st', new.
  unfold setup_vector_store.
  cbv beta iota delta [bind read write ret VectorStore.create_collection].
  cbn [db set_chroma_client]. fold name. rewrite Hfree.
  fold st2. fold chunks. rewrite Hrun.
  split; [reflexivity |]. split; [exact Hcol |]. split; [exact Hcl |].
  split; [| exact Hall].
  rewrite Hdb. simpl. apply insert_insert_eq.
Qed.

(** [clear_collection] never raises; what it leaves behind. *)
Lemma clear_run st :
  clear_collection st
  = (Return tt,
     match collection st with
     | Some name =>
         if chroma_client st then
           match db st !! name with
           | Some _ => set_collection None (set_db (delete name (db st)) st)
           | None => st
           end
         else st
     | None => st
     end).
Proof.
  unfold clear_collection, bind at 1, read.
  destruct (collection st) as [name |] eqn:Hc; [| reflexivity].
  unfold try_except, bind at 1. destruct (chroma_client st) eqn:Hcl.
  - unfold VectorStore.delete_collection, bind, read.
    destruct (db st !! name); reflexivity.
  - reflexivity.
Qed.

End LifecycleFacts.

(** X14. Under a collection name that is free, and with an embedding model
    that gives one vector per text whenever it answers,
    [setup_vector_store] returns the name, the number of chunks and the
    chunk size; the object then points at the new collection, which holds
    exactly one record per chunk, in order, and [get_collection_stats]
    reports the same number of chunks. Other collections are left as they
    were. *)
Theorem setup_builds_the_collection ext st transcript notes chunk_size :
  db st !! (lit "video_content_" ++ now ext) = None ->
  Forall (answers_in_full ext)
    (batches (_create_chunks transcript notes chunk_size)) ->
  exists st' new,
    setup_vector_store ext transcript notes chunk_size st
    = (Return {| collection_name := lit "video_content_" ++ now ext;
                 total_chunks :=
                   length (_create_chunks transcript notes chunk_size);
                 chunk_size := chunk_size |}, st')
    /\ collection st' = Some (lit "video_content_" ++ now ext)
    /\ db st' = <[lit "video_content_" ++ now ext := new]> (db st)
    /\ Forall2 entry_of (_create_chunks transcript notes chunk_size) new
    /\ fst (get_collection_stats st')
       = Return (Some {| stats_total_chunks :=
                           length (_create_chunks transcript notes chunk_size);
                         stats_collection_name :=
                           lit "video_content_" ++ now ext;
                         stats_embedding_model :=
                           lit "sentence-transformers/all-MiniLM-L6-v2" |}).
Proof.
  intros Hfree Hb.
  destruct (setup_run ext st transcript notes chunk_size Hfree Hb)
    as (st' & new & Hrun & Hcol & _ & Hdb & Hall).
  exists st', new. repeat split; try assumption.
  rewrite (stats_found st' _ new Hcol)
    by (rewrite Hdb; apply lookup_insert_eq).
  simpl. apply Forall2_length in Hall. rewrite Hall. reflexivity.
Qed.

(** X15. When a collection of the same name exists already (two builds
    within one second), [setup_vector_store] raises before anything is
    stored: the store is unchanged and the object keeps its previous
    collection. *)
Theorem setup_name_collision ext st transcript notes chunk_size es :
  db st !! (lit "video_content_" ++ now ext) = Some es ->
  exists e st',
    setup_vector_store ext transcript notes chunk_size st = (Raise e, st')
    /\ exn_kind e = AlreadyExists
    /\ db st' = db st
    /\ collection st' = collection st.
Proof.
  intros H. unfold setup_vector_store.
  cbv beta iota delta [bind read write ret VectorStore.create_collection].
  cbn [db set_chroma_client]. rewrite H.
  eexists _, _. split; [reflexivity |]. repeat split.
Qed.

(** X16. Building a collection and clearing it again restores the store:
    after [setup_vector_store] under a free name, [clear_collection]
    leaves the store as it was before the build and the object without a
    collection. *)
Theorem setup_then_clear_restores_store ext st transcript notes chunk_size :
  db st !! (lit "video_content_" ++ now ext) = None ->
  Forall (answers_in_full ext)
    (batches (_create_chunks transcript notes chunk_size)) ->
  exists st',
    (setup_vector_store ext transcript notes chunk_size ;;; clear_collection) st
    = (Return tt, st')
    /\ db st' = db st
    /\ collection st' = None.
Proof.
  intros Hfree Hb.
  destruct (setup_run ext st transcript notes chunk_size Hfree Hb)
    as (st1 & new & Hrun & Hcol & Hcl & Hdb & _).
  unfold bind. rewrite Hrun, clear_run, Hcol, Hcl, Hdb, lookup_insert_eq.
  eexists. split; [reflexivity |]. simpl.
  split; [apply delete_insert_id, Hfree | reflexivity].
Qed.

(** X17. [clear_collection] never raises. It deletes the collection and
    drops the handle only when the object has a store client and the
    collection exists; in every other case (no collection, no client, a
    collection that is gone already) it changes nothing, so that a handle
    whose deletion failed is kept. *)
Theorem clear_collection_outcome st :
  exists st',
    clear_collection st = (Return tt, st')
    /\ ((exists name es,
           collection st = Some name /\ chroma_client st = true
           /\ db st !! name = Some es
           /\ collection st' = None /\ db st' = delete name (db st))
        \/ ((collection st = None \/ chroma_client st = false
             \/ collection_missing st)
            /\ st' = st)).
Proof.
  eexists. split; [apply clear_run |].
  unfold collection_missing.
  destruct (collection st) as [name |] eqn:Hc;
    [| right; split; [left; reflexivity | reflexivity]].
  destruct (chroma_client st) eqn:Hcl;
    [| right; split; [right; left; reflexivity | reflexivity]].
  destruct (db st !! name) as [es |] eqn:Hd;
    [| right; split; [right; right; reflexivity | reflexivity]].
  left. exists name, es. repeat split. exact Hd.
Qed.

(** X18. [get_collection_stats] never raises and changes nothing. It
    returns the empty dictionary exactly when the collection is missing,
    and otherwise the name of the collection and the number of its
    records. *)
Theorem collection_stats_outcome st :
  exists r,
    get_collection_stats st = (Return r, st)
    /\ (r = None <-> collection_missing st)
    /\ (forall name es,
          collection st = Some name -> db st !! name = Some es ->
          r = Some {| stats_total_chunks := length es;
                      stats_collection_name := name;
                      stats_embedding_model :=
                        lit "sentence-transformers/all-MiniLM-L6-v2" |}).
Proof.
  unfold collection_missing.
  destruct (collection st) as [name |] eqn:Hc.
  - destruct (db st !! name) as [es |] eqn:Hd.
    + eexists. split; [apply (stats_found st name es Hc Hd) |].
      split; [split; discriminate |].
      intros name' es' [= <-] Hd'. rewrite Hd in Hd'.
      injection Hd' as <-. reflexivity.
    + exists None. split.
      * destruct (count_missing st) as (e & He).
        { unfold collection_missing. rewrite Hc. exact Hd. }
        unfold get_collection_stats, bind at 1, read. rewrite Hc.
        unfold try_except, bind. rewrite He. reflexivity.
      * split; [tauto |]. intros name' es' [= <-] Hd'. congruence.
  - exists None. split.
    + unfold get_collection_stats, bind, read. rewrite Hc. reflexivity.
    + split; [tauto | discriminate].
Qed.

Section LifecycleWitnesses.

Lemma services_answer_in_full up distance bs :
  Forall (answers_in_full (Examples.services up distance)) bs.
Proof.
  apply List.Forall_forall. intros b _. unfold answers_in_full. simpl.
  destruct up; [rewrite !length_map; reflexivity | exact I].
Qed.

End LifecycleWitnesses.

Lemma setup_builds_the_collection_witness :
  exists st' new,
    setup_vector_store (Examples.services true (dec 1 2)) Examples.talk
      Examples.no_notes 1000 Examples.blank
    = (Return {| collection_name := Examples.name;
                 total_chunks := 3; chunk_size := 1000 |}, st')
    /\ collection st' = Some Examples.name
    /\ db st' = <[Examples.name := new]> (db Examples.blank)
    /\ Forall2 entry_of
         (_create_chunks Examples.talk Examples.no_notes 1000) new
    /\ fst (get_collection_stats st')
       = Return (Some {| stats_total_chunks := 3;
                         stats_collection_name := Examples.name;
                         stats_embedding_model :=
                           lit "sentence-transformers/all-MiniLM-L6-v2" |}).
Proof.
  assert (db Examples.blank !! (lit "video_content_"
                                ++ now (Examples.services true (dec 1 2)))
          = None) as Hfree by (vm_compute; reflexivity).
  exact (setup_builds_the_collection (Examples.services true (dec 1 2))
           Examples.blank Examples.talk Examples.no_notes 1000 Hfree
           (services_answer_in_full true (dec 1 2) _)).
Defined.

Lemma setup_name_collision_witness :
  exists e st',
    setup_vector_store (Examples.services true (dec 1 2)) Examples.talk
      Examples.no_notes 1000 Examples.indexed = (Raise e, st')
    /\ exn_kind e = AlreadyExists
    /\ db st' = db Examples.indexed
    /\ collection st' = collection Examples.indexed.
Proof.
  assert (db Examples.indexed !! (lit "video_content_"
                                  ++ now (Examples.services true (dec 1 2)))
          = Some [Examples.X; Examples.Y; Examples.W]) as H
    by (vm_compute; reflexivity).
  exact (setup_name_collision (Examples.services true (dec 1 2))
           Examples.indexed Examples.talk Examples.no_notes 1000 _ H).
Defined.

Lemma setup_then_clear_restores_store_witness :
  exists st',
    (setup_vector_store (Examples.services false (dec 1 2)) Examples.talk
       Examples.no_notes 1000 ;;; clear_collection) Examples.blank
    = (Return tt, st')
    /\ db st' = db Examples.blank
    /\ collection st' = None.
Proof.
  assert (db Examples.blank !! (lit "video_content_"
                                ++ now (Examples.services false (dec 1 2)))
          = None) as Hfree by (vm_compute; reflexivity).
  exact (setup_then_clear_restores_store (Examples.services false (dec 1 2))
           Examples.blank Examples.talk Examples.no_notes 1000 Hfree
           (services_answer_in_full false (dec 1 2) _)).
Defined.

(** ** The query path in general *)

Section QueryFacts.

Variable ext : Ext.

(** Retrieval never raises: it yields nothing, or the first reranked
    candidates of a search that succeeded. *)
Lemma retrieve_cases question k st :
  exists r st',
    _retrieve_relevant_chunks ext question k st = (Return r, st')
    /\ same_store st st'
    /\ (r = []
        \/ exists es v hits,
             nearest ext es v (k * 2) = inr hits
             /\ r = slice_to k (_rerank_chunks question (map hit_chunk hits))).
Proof.
  destruct (generate_embeddings_total ext [question] st) as (vs & st1 & Hg & Hs).
  unfold _retrieve_relevant_chunks, try_except, bind at 1. rewrite Hg.
  assert (forall line, same_store st (printed line st1)) as Hp.
  { intros line. eapply same_store_trans; [exact Hs | apply same_store_printed]. }
  destruct vs as [| v vs].
  - eexists _, _. split; [reflexivity |]. split; [apply Hp | left; reflexivity].
  - cbv beta iota delta [first ret bind VectorStore.query VectorStore.records read].
    destruct (collection st1) as [name |].
    + destruct (db st1 !! name) as [es |].
      * cbv beta iota delta [snd call raise ret].
        destruct (nearest ext es v (k * 2)) as [e | hits] eqn:Hn.
        -- eexists _, _. split; [reflexivity |].
           split; [apply Hp | left; reflexivity].
        -- eexists _, _. split; [reflexivity |].
           split; [exact Hs | right; eauto].
      * eexists _, _. split; [reflexivity |].
        split; [apply Hp | left; reflexivity].
    + eexists _, _. split; [reflexivity |].
      split; [apply Hp | left; reflexivity].
Qed.

(** Follow-up generation never raises, and the fallback extractor never
    adds a question. *)
Lemma follow_up_run question answer chunks st :
  exists st',
    _generate_follow_up_questions ext question answer chunks st
    = (Return (follow_up_list ext question answer chunks), st')
    /\ same_store st st'.
Proof.
  unfold _generate_follow_up_questions, follow_up_list, follow_up_request,
    try_except, bind, call.
  destruct (chat ext _) as [e | content]; simpl.
  - eexists. split; [reflexivity | apply same_store_printed].
  - destruct (json_loads ext (strip content)); simpl;
      try (eexists; split; [reflexivity | apply same_store_refl]).
    unfold _extract_questions_from_text.
    rewrite extract_loop_skip by apply re_split_no_delim.
    eexists. split; [reflexivity | apply same_store_refl].
Qed.

(** [answer_question] as a function of what retrieval yields. *)
Lemma answer_run question options st :
  exists r st1 st',
    _retrieve_relevant_chunks ext question (get (max_sources options) 3%Z) st
    = (Return r, st1)
    /\ answer_question ext question options st
       = (Return (answer_of ext question r), st')
    /\ same_store st st'
    /\ (r = []
        \/ exists es v hits,
             nearest ext es v (get (max_sources options) 3%Z * 2) = inr hits
             /\ r = slice_to (get (max_sources options) 3%Z)
                      (_rerank_chunks question (map hit_chunk hits))).
Proof.
  destruct (retrieve_cases question (get (max_sources options) 3%Z) st)
    as (r & st1 & Hr & Hs1 & Hcases).
  destruct (generate_answer_total ext question r st1) as (st2 & Ha & Hs2).
  destruct (follow_up_run question (answer_text ext question r) r st2)
    as (st3 & Hf & Hs3).
  exists r, st1, st3. split; [exact Hr |]. split.
  - unfold answer_question, bind. rewrite Hr, Ha, Hf. reflexivity.
  - split; [| exact Hcases].
    eapply same_store_trans; [exact Hs1 |].
    eapply same_store_trans; eassumption.
Qed.

Lemma in_firstn {A} n (l : list A) x : In x (firstn n l) -> In x l.
Proof.
  revert n. induction l as [| y l IH]; intros [| n]; simpl; try tauto.
  intros [-> | H]; [left; reflexivity | right; apply (IH n), H].
Qed.

Lemma descending_firstn {A} (key : A -> Qc) n l :
  Spec.descending key l -> Spec.descending key (firstn n l).
Proof.
  unfold Spec.descending. intros H. revert n.
  induction H as [| x l Hl IH Hx]; intros [| n]; simpl; try constructor.
  - apply IH.
  - apply List.Forall_forall. intros y Hy.
    rewrite List.Forall_forall in Hx. apply Hx.
    apply (in_firstn _ _ _ Hy).
Qed.

Lemma descending_slice_to {A} (key : A -> Qc) k l :
  Spec.descending key l -> Spec.descending key (slice_to k l).
Proof. intros H. unfold slice_to. destruct (k <? 0)%Z; apply descending_firstn, H. Qed.

Lemma descending_sources r :
  Spec.descending relevance_score r ->
  Spec.descending src_relevance_score (_process_sources r).
Proof.
  unfold Spec.descending, _process_sources.
  induction 1 as [| x l Hl IH Hx]; simpl; constructor.
  - exact IH.
  - apply List.Forall_forall. intros y Hy. apply in_map_iff in Hy.
    destruct Hy as (c & <- & Hc). simpl.
    rewrite List.Forall_forall in Hx. apply Hx, Hc.
Qed.

Lemma retrieved_descending question k hits :
  Spec.descending relevance_score
    (slice_to k (_rerank_chunks question (map hit_chunk hits))).
Proof. apply descending_slice_to, sorted_reverse_descending. Qed.

Lemma slice_to_length {A} k (l : list A) :
  (0 <= k)%Z -> (length (slice_to k l) <= Z.to_nat k)%nat.
Proof.
  intros Hk. rewrite slice_to_nonneg by exact Hk.
  rewrite length_firstn. lia.
Qed.

Lemma slice_to_incl {A} k (l : list A) x : In x (slice_to k l) -> In x l.
Proof.
  unfold slice_to. destruct (k <? 0)%Z; apply in_firstn.
Qed.

(** No distance above 1: no retrieved score below 0. *)
Lemma retrieved_nonneg question k hits :
  Forall (fun h => h_distance h <= 1) hits ->
  Forall (fun c => 0 <= relevance_score c)
    (slice_to k (_rerank_chunks question (map hit_chunk hits))).
Proof.
  intros H. apply List.Forall_forall. intros c Hc.
  apply slice_to_incl in Hc. unfold _rerank_chunks in Hc.
  apply (Permutation_in _ (sorted_reverse_perm relevance_score _)) in Hc.
  apply in_map_iff in Hc. destruct Hc as (c0 & <- & Hc0).
  apply in_map_iff in Hc0. destruct Hc0 as (h & <- & Hh).
  rewrite List.Forall_forall in H. specialize (H h Hh).
  apply rescore_nonneg. unfold hit_chunk. simpl.
  qc_to_q. lra.
Qed.

(** The query path on a missing collection, for any services. *)
Lemma answer_on_missing question options st :
  collection_missing st ->
  exists st',
    answer_question ext question options st
    = (Return (answer_of ext question []), st')
    /\ same_store st st'.
Proof.
  intros Hm.
  destruct (retrieve_missing ext question (get (max_sources options) 3%Z) st Hm)
    as (st1 & Hr & Hs1).
  destruct (answer_run question options st)
    as (r & st1' & st' & Hr' & Ha & Hs & _).
  rewrite Hr in Hr'. injection Hr' as <- <-.
  exists st'. auto.
Qed.

End QueryFacts.

(** X19. [answer_question] never raises, whatever the services do and
    whatever the state of the object: every failure of the embedding
    model, of the store and of the chat service is caught on the way. It
    changes neither the store nor the handle of the object, its sources
    are in descending order of score, and its confidence is at most 1. *)
Theorem answer_question_always_answers ext question options st :
  exists a st',
    answer_question ext question options st = (Return a, st')
    /\ same_store st st'
    /\ Spec.descending src_relevance_score (sources a)
    /\ confidence a <= 1.
Proof.
  destruct (answer_run ext question options st)
    as (r & st1 & st' & _ & Ha & Hs & Hcases).
  exists (answer_of ext question r), st'.
  split; [exact Ha |]. split; [exact Hs |]. split.
  - simpl. apply descending_sources.
    destruct Hcases as [-> | (es & v & hits & _ & ->)];
      [constructor | apply retrieved_descending].
  - apply confidence_at_most_one.
Qed.

(** X20. For a non-negative [max_sources] (3 when the option is absent)
    the answer cites at most [max_sources] sources. *)
Theorem sources_at_most_max_sources ext question options st :
  (0 <= get (max_sources options) 3)%Z ->
  exists a st',
    answer_question ext question options st = (Return a, st')
    /\ (length (sources a) <= Z.to_nat (get (max_sources options) 3%Z))%nat.
Proof.
  intros Hk.
  destruct (answer_run ext question options st)
    as (r & st1 & st' & _ & Ha & _ & Hcases).
  exists (answer_of ext question r), st'. split; [exact Ha |].
  simpl. unfold _process_sources. rewrite length_map.
  destruct Hcases as [-> | (es & v & hits & _ & ->)]; [simpl; lia |].
  apply slice_to_length, Hk.
Qed.

Lemma sources_at_most_max_sources_witness :
  exists a st',
    answer_question (Examples.services true (dec 1 2)) Examples.question
      Examples.options Examples.indexed = (Return a, st')
    /\ (length (sources a) <= 2)%nat.
Proof.
  apply (sources_at_most_max_sources (Examples.services true (dec 1 2))
           Examples.question Examples.options Examples.indexed).
  simpl. lia.
Defined.

(** X21. The follow-up questions are the items of the reply of the chat
    service when that reply is a JSON list, and there are none in every
    other case: when the chat service fails, when the reply is JSON but
    not a list, and when it is not JSON at all, since the fallback
    extractor finds nothing. The call never raises. *)
Theorem follow_ups_only_from_a_json_list ext question answer chunks st :
  exists st',
    _generate_follow_up_questions ext question answer chunks st
    = (Return
         match chat ext (follow_up_request question answer
                           (_prepare_context (slice_to 3 chunks))) with
         | inl _ => []
         | inr content =>
             match json_loads ext (strip content) with
             | JsonList follow_ups => follow_ups
             | JsonOther => []
             | JsonInvalid _ => []
             end
         end, st')
    /\ same_store st st'.
Proof.
  destruct (follow_up_run ext question answer chunks st) as (st' & H & Hs).
  exists st'. split; [| exact Hs]. rewrite H. unfold follow_up_list.
  destruct (chat ext _); [reflexivity |].
  destruct (json_loads ext _); reflexivity.
Qed.

(** X22. When the chat service fails, [answer_question] still returns a
    result: the answer is the apology text, there are no follow-up
    questions, and sources and confidence are computed from the retrieved
    chunks as usual, the confidence with the apology as the answer
    text. *)
Theorem chat_failure_gives_apology ext question options st :
  (forall request, exists e, chat ext request = inl e) ->
  exists r st1 a st',
    _retrieve_relevant_chunks ext question (get (max_sources options) 3%Z) st
    = (Return r, st1)
    /\ answer_question ext question options st = (Return a, st')
    /\ answer a = apology
    /\ follow_up_questions a = []
    /\ sources a = _process_sources r
    /\ confidence a = _calculate_confidence r apology.
Proof.
  intros Hchat.
  destruct (answer_run ext question options st)
    as (r & st1 & st' & Hr & Ha & _ & _).
  exists r, st1, (answer_of ext question r), st'.
  split; [exact Hr |]. split; [exact Ha |].
  assert (answer_text ext question r = apology) as Htext.
  { unfold answer_text.
    destruct (Hchat (answer_request question (_prepare_context r)))
      as (e & ->). reflexivity. }
  unfold answer_of. simpl. rewrite Htext. repeat split.
  unfold follow_up_list.
  destruct (Hchat (follow_up_request question apology
                     (_prepare_context (slice_to 3 r)))) as (e & ->).
  reflexivity.
Qed.

Lemma chat_failure_gives_apology_witness :
  exists r st1 a st',
    _retrieve_relevant_chunks (Examples.mute (dec 1 2)) Examples.question
      (get (max_sources Examples.options) 3%Z) Examples.indexed
    = (Return r, st1)
    /\ answer_question (Examples.mute (dec 1 2)) Examples.question
         Examples.options Examples.indexed = (Return a, st')
    /\ answer a = apology
    /\ follow_up_questions a = []
    /\ sources a = _process_sources r
    /\ confidence a = _calculate_confidence r apology.
Proof.
  apply (chat_failure_gives_apology (Examples.mute (dec 1 2))
           Examples.question Examples.options Examples.indexed).
  intros request. eexists. reflexivity.
Defined.

(** X23. The question page constructs its [RAGSystem] object on every run
    and asks it at once, so that the object never has a collection:
    whatever has been indexed, the answer is generated from an empty
    context, cites no source and has confidence 0, and the store is not
    touched. *)
Theorem question_page_never_reads_the_index ext question options st :
  exists a st',
    QAPage.ask ext question options st = (Return a, st')
    /\ answer a = answer_text ext question []
    /\ sources a = []
    /\ confidence a = 0
    /\ db st' = db st.
Proof.
  unfold QAPage.ask, __init__, bind at 1 2, read, write.
  destruct (answer_on_missing ext question options
              (set_collection None (set_chroma_client false st)))
    as (st' & Ha & Hs); [exact I |].
  rewrite Ha. eexists _, st'. split; [reflexivity |].
  repeat split. apply Hs.
Qed.

(** X24. When the store reports no distance above 1, every source of an
    answer has a non-negative score and the confidence lies between 0
    and 1. *)
Theorem bounded_distances_bound_confidence ext question options st :
  distances_at_most_one ext ->
  exists a st',
    answer_question ext question options st = (Return a, st')
    /\ Forall (fun source => 0 <= src_relevance_score source) (sources a)
    /\ 0 <= confidence a /\ confidence a <= 1.
Proof.
  intros Hd.
  destruct (answer_run ext question options st)
    as (r & st1 & st' & _ & Ha & _ & Hcases).
  exists (answer_of ext question r), st'. split; [exact Ha |].
  assert (Forall (fun c => 0 <= relevance_score c) r) as Hr.
  { destruct Hcases as [-> | (es & v & hits & Hn & ->)]; [constructor |].
    apply retrieved_nonneg. exact (Hd _ _ _ _ Hn). }
  simpl. split; [| split].
  - unfold _process_sources. apply List.Forall_forall. intros s Hs.
    apply in_map_iff in Hs. destruct Hs as (c & <- & Hc). simpl.
    rewrite List.Forall_forall in Hr. apply Hr, Hc.
  - apply confidence_nonneg, Hr.
  - apply confidence_at_most_one.
Qed.

Lemma bounded_distances_bound_confidence_witness :
  exists a st',
    answer_question (Examples.services true (dec 1 2)) Examples.question
      Examples.options Examples.indexed = (Return a, st')
    /\ Forall (fun source => 0 <= src_relevance_score source) (sources a)
    /\ 0 <= confidence a /\ confidence a <= 1.
Proof.
  apply (bounded_distances_bound_confidence
           (Examples.services true (dec 1 2)) Examples.question
           Examples.options Examples.indexed).
  intros es v n hits H. simpl in H. injection H as <-.
  apply List.Forall_forall. intros h Hh. apply in_firstn in Hh.
  apply in_map_iff in Hh. destruct Hh as (e & <- & _). simpl.
  vm_compute. discriminate.
Defined.

(** ** The question page *)

Section QuestionPageFacts.

Lemma titles_length (secs : list NoteSection) acc :
  (length (fold_left
             (fun acc section =>
                let title := get (sec_title section) [] in
                if truthy title
                then acc ++ [lit "Tell me more about " ++ title] else acc)
             secs acc)
   <= length acc + length secs)%nat.
Proof.
  revert acc. induction secs as [| x xs IH]; intros acc; simpl; [lia |].
  etransitivity; [apply IH |].
  destruct (truthy (get (sec_title x) [])); rewrite ?length_app; simpl; lia.
Qed.

Lemma topics_length (topics : list str) acc :
  length (fold_left
            (fun acc topic => acc ++ [lit "Explain " ++ topic ++ lit " in detail"])
            topics acc)
  = (length acc + length topics)%nat.
Proof.
  revert acc. induction topics as [| x xs IH]; intros acc; simpl; [lia |].
  rewrite IH, length_app. simpl. lia.
Qed.

End QuestionPageFacts.

(** X25. After [save_question_to_history] the history holds at most 20
    entries and ends with the question just asked. Before it come the
    most recent entries of the previous history, in order: only the oldest
    entries are dropped, and only as many as it takes to get down to 20,
    so that nothing is dropped while the history is shorter. *)
Theorem history_keeps_the_last_20 timestamp question result qa_history :
  let item := {| qa_question := question; qa_answer := answer result;
                 qa_timestamp := timestamp;
                 qa_sources_count := length (sources result) |} in
  let saved :=
    QAPage.save_question_to_history timestamp question result qa_history in
  (length saved <= 20)%nat
  /\ exists dropped kept,
       get qa_history [] = dropped ++ kept
       /\ saved = kept ++ [item]
       /\ length dropped = (length (get qa_history []) + 1 - 20)%nat.
Proof.
  simpl. unfold QAPage.save_question_to_history, QAPage.last_n, len.
  generalize (get qa_history []) as old. intros old.
  set (item := {| qa_question := question |}). clearbody item.
  rewrite length_app. simpl.
  destruct (Z.of_nat (length old + 1) >? 20)%Z eqn:E.
  - rewrite Z.gtb_ltb in E. apply Z.ltb_lt in E.
    rewrite skipn_app.
    replace (length old + 1 - 20 - length old)%nat with 0%nat by lia.
    simpl. split.
    + rewrite length_app, length_skipn. simpl. lia.
    + exists (firstn (length old + 1 - 20) old),
             (skipn (length old + 1 - 20) old).
      split; [symmetry; apply firstn_skipn |].
      split; [reflexivity |]. rewrite length_firstn. lia.
  - rewrite Z.gtb_ltb, Z.ltb_ge in E. split.
    + rewrite length_app. simpl. lia.
    + exists [], old. split; [reflexivity |].
      split; [reflexivity |]. simpl. lia.
Qed.

(** X26. [generate_suggested_questions] offers between 6 and 8
    suggestions, and the first three default suggestions are always among
    them. *)
Theorem suggestions_between_6_and_8 notes topics :
  let suggestions := QAPage.generate_suggested_questions notes topics in
  (6 <= length suggestions <= 8)%nat
  /\ incl (firstn 3 QAPage.default_suggestions) suggestions.
Proof.
  simpl. unfold QAPage.generate_suggested_questions.
  set (content := fold_left _ (firstn 2 (get topics [])) _).
  assert (length content <= 5)%nat as Hc.
  { unfold content. rewrite topics_length.
    pose proof (titles_length (firstn 3 (get (sections notes) [])) []) as H.
    cbn [length] in H. rewrite length_firstn. rewrite length_firstn in H.
    lia. }
  clearbody content. split.
  - rewrite length_firstn, length_app.
    change (length QAPage.default_suggestions) with 6%nat. lia.
  - rewrite firstn_app.
    intros x Hx. apply in_or_app. right.
    destruct (8 - length content)%nat as [| [| [| n]]] eqn:E; try lia.
    simpl in *. tauto.
Qed.

(** X27. For a positive combined score the boost does what it is meant
    to: of a plain segment and a key point with the same text and the
    same similarity, the key point is ranked first although the vector
    search had it second. *)
Theorem key_point_boost_promotes_positive question c c' :
  r_content c = r_content c' ->
  relevance_score c = relevance_score c' ->
  m_type (r_metadata c) = Some (lit "key_point") ->
  m_type (r_metadata c') = Some (lit "transcript_segment") ->
  0 < relevance_score (rescore (keywords question) c') ->
  _rerank_chunks question [c'; c]
  = [rescore (keywords question) c; rescore (keywords question) c'].
Proof.
  intros Hc Hs Ht Ht' Hpos. unfold _rerank_chunks. simpl.
  rewrite decide_True; [reflexivity |].
  revert Hpos. unfold rescore, source_boost. simpl.
  rewrite Hc, Hs, Ht, Ht'.
  rewrite (decide_True (P := Some (lit "key_point") = Some (lit "key_point")))
    by reflexivity.
  rewrite !decide_False by (vm_compute; discriminate).
  intros Hpos. qc_to_q. lra.
Qed.

Lemma key_point_boost_promotes_positive_witness :
  _rerank_chunks Examples.question
    [set_relevance_score Examples.far_segment (dec 1 2);
     set_relevance_score Examples.far_key_point (dec 1 2)]
  = [rescore (keywords Examples.question)
       (set_relevance_score Examples.far_key_point (dec 1 2));
     rescore (keywords Examples.question)
       (set_relevance_score Examples.far_segment (dec 1 2))].
Proof.
  apply (key_point_boost_promotes_positive Examples.question
           (set_relevance_score Examples.far_key_point (dec 1 2))
           (set_relevance_score Examples.far_segment (dec 1 2)));
    reflexivity.
Defined.
